(** * Sliding-Puzzle: the board logic of [GUI.py], embedded and verified

    The class [SlidingPuzzle] of [GUI.py] keeps its board in Tk variables
    and in a flat Python list.  This development embeds the board logic
    (new game, shuffle, clicks, solved test, bot launch) as state-passing
    functions over a record of the object's fields, in a small state and
    exception monad, and proves the properties of the puzzle engine. *)

From Stdlib Require Import ZArith Lia.
From stdpp Require Import base tactics option list list_numbers relations
  strings pretty gmap.

Local Open Scope Z_scope.

(** ** Python values and exceptions *)

(** The exceptions the board logic can raise. [OSError] carries the
    text [str(e)] that the bot launcher prints. *)
Inductive exn : Type :=
  | IndexError
  | ValueError
  | ZeroDivisionError
  | OSError (msg : string).

(** A widget of the board frame: the gray label of the blank cell or the
    button of a numbered tile with its caption. The button of cell
    [(r, c)] calls [on_tile_click r c]. *)
Inductive widget : Type :=
  | Label
  | Button (text : string).

(** A modal dialog opened through [tkinter.messagebox]. *)
Inductive dialog : Type :=
  | showerror (title message : string)
  | showinfo (title message : string).

(** The line feed of the Python literals. *)
Definition nl : string := String (Ascii.ascii_of_nat 10) EmptyString.

(** ** The object and its surroundings *)

(** The fields of a [SlidingPuzzle] object ([size], [mode] and
    [move_count] are Tk variables, [tiles] the flat list, [buttons] the
    dict from cell to widget), followed by what the methods consult or
    affect outside the object: the random source (the stream of draws
    still to come), the files that exist, the outcome the next process
    launch will have, the processes launched and the dialogs shown. *)
Record SlidingPuzzle : Type := mkPuzzle {
  size : Z;
  mode : string;
  move_count : Z;
  tiles : list Z;
  buttons : gmap (Z * Z) widget;
  rand : nat → nat;
  fs_exists : string → bool;
  popen_error : option string;
  spawned : list string;
  dialogs : list dialog;
}.

Definition with_size (n : Z) (s : SlidingPuzzle) : SlidingPuzzle :=
  mkPuzzle n (mode s) (move_count s) (tiles s) (buttons s) (rand s)
    (fs_exists s) (popen_error s) (spawned s) (dialogs s).

Definition with_mode (m : string) (s : SlidingPuzzle) : SlidingPuzzle :=
  mkPuzzle (size s) m (move_count s) (tiles s) (buttons s) (rand s)
    (fs_exists s) (popen_error s) (spawned s) (dialogs s).

Definition with_move_count (k : Z) (s : SlidingPuzzle) : SlidingPuzzle :=
  mkPuzzle (size s) (mode s) k (tiles s) (buttons s) (rand s)
    (fs_exists s) (popen_error s) (spawned s) (dialogs s).

Definition with_tiles (t : list Z) (s : SlidingPuzzle) : SlidingPuzzle :=
  mkPuzzle (size s) (mode s) (move_count s) t (buttons s) (rand s)
    (fs_exists s) (popen_error s) (spawned s) (dialogs s).

Definition with_buttons (b : gmap (Z * Z) widget) (s : SlidingPuzzle)
  : SlidingPuzzle :=
  mkPuzzle (size s) (mode s) (move_count s) (tiles s) b (rand s)
    (fs_exists s) (popen_error s) (spawned s) (dialogs s).

Definition with_rand (r : nat → nat) (s : SlidingPuzzle) : SlidingPuzzle :=
  mkPuzzle (size s) (mode s) (move_count s) (tiles s) (buttons s) r
    (fs_exists s) (popen_error s) (spawned s) (dialogs s).

Definition with_spawned (p : list string) (s : SlidingPuzzle)
  : SlidingPuzzle :=
  mkPuzzle (size s) (mode s) (move_count s) (tiles s) (buttons s) (rand s)
    (fs_exists s) (popen_error s) p (dialogs s).

Definition with_dialogs (d : list dialog) (s : SlidingPuzzle)
  : SlidingPuzzle :=
  mkPuzzle (size s) (mode s) (move_count s) (tiles s) (buttons s) (rand s)
    (fs_exists s) (popen_error s) (spawned s) d.

(** ** The monad of methods *)

(** A method call ends normally with a value or raises; in both cases
    the object is left in some state (Python does not roll back the
    assignments made before an exception). *)
Inductive outcome (A : Type) : Type :=
  | Ret (a : A) (s : SlidingPuzzle)
  | Raise (e : exn) (s : SlidingPuzzle).
Arguments Ret {A} a s.
Arguments Raise {A} e s.

Definition M (A : Type) : Type := SlidingPuzzle → outcome A.

Definition final {A} (o : outcome A) : SlidingPuzzle :=
  match o with Ret _ s => s | Raise _ s => s end.

Definition returns {A} (o : outcome A) : bool :=
  match o with Ret _ _ => true | Raise _ _ => false end.

Definition M_ret {A} (a : A) : M A := λ s, Ret a s.

Definition M_bind {A B} (f : A → M B) (c : M A) : M B :=
  λ s, match c s with
       | Ret a s' => f a s'
       | Raise e s' => Raise e s'
       end.

#[global] Instance M_mret : MRet M := @M_ret.
#[global] Instance M_mbind : MBind M := @M_bind.

Definition raise {A} (e : exn) : M A := λ s, Raise e s.

(** [try: c except Exception as e: h e] *)
Definition try_except {A} (c : M A) (h : exn → M A) : M A :=
  λ s, match c s with
       | Ret a s' => Ret a s'
       | Raise e s' => h e s'
       end.

Definition gets {A} (f : SlidingPuzzle → A) : M A := λ s, Ret (f s) s.
Definition modify (f : SlidingPuzzle → SlidingPuzzle) : M unit :=
  λ s, Ret tt (f s).

(** [for x in xs: body x] *)
Fixpoint for_each {A} (xs : list A) (body : A → M unit) : M unit :=
  match xs with
  | [] => mret tt
  | x :: xs' => body x ;; for_each xs' body
  end.

(** ** Python primitives *)

(** [list(range(lo, hi))], empty when [hi <= lo]. *)
Definition py_range (lo hi : Z) : list Z := seqZ lo (hi - lo).

(** The position a Python subscript [i] denotes in a list of [len]
    items: non-negative subscripts count from the front, negative ones
    from the back, anything else is out of range. *)
Definition py_subscript (len : nat) (i : Z) : option nat :=
  if bool_decide (0 ≤ i < Z.of_nat len) then Some (Z.to_nat i)
  else if bool_decide (- Z.of_nat len ≤ i < 0) then
    Some (Z.to_nat (Z.of_nat len + i))
  else None.

(** [self.tiles[i]] *)
Definition tiles_getitem (i : Z) : M Z :=
  λ s, match py_subscript (length (tiles s)) i ≫= (tiles s !!.) with
       | Some v => Ret v s
       | None => Raise IndexError s
       end.

(** [self.tiles[i] = v] *)
Definition tiles_setitem (i : Z) (v : Z) : M unit :=
  λ s, match py_subscript (length (tiles s)) i with
       | Some k => Ret tt (with_tiles (<[k := v]> (tiles s)) s)
       | None => Raise IndexError s
       end.

(** [self.tiles.index(v)]: the first position holding [v]. *)
Definition tiles_index (v : Z) : M Z :=
  λ s, match list_find (λ x, x = v) (tiles s) with
       | Some (k, _) => Ret (Z.of_nat k) s
       | None => Raise ValueError s
       end.

(** [divmod(a, n)] on integers: floor division, the remainder has the
    sign of [n]. *)
Definition py_divmod (a n : Z) : M (Z * Z) :=
  if bool_decide (n = 0) then raise ZeroDivisionError
  else mret (a `div` n, a `mod` n).

(** [random.choice(xs)]: one draw of the random source selects an item;
    an empty sequence raises [IndexError]. Every item can be selected,
    and nothing but an item. *)
Definition random_choice {A} (xs : list A) : M A :=
  λ s, match xs !! (rand s 0%nat mod length xs)%nat with
       | Some x => Ret x (with_rand (λ k, rand s (S k)) s)
       | None => Raise IndexError s
       end.

Definition messagebox (d : dialog) : M unit :=
  modify (λ s, with_dialogs (dialogs s ++ [d]) s).

(** [os.path.join(os.path.dirname(__file__), name)]; the directory of
    the script is a parameter of the model. *)
Definition script_dir : string := ".".
Definition os_path_join (dir name : string) : string :=
  dir +:+ "/" +:+ name.

(** [subprocess.Popen([sys.executable, path])] *)
Definition Popen (path : string) : M unit :=
  λ s, match popen_error s with
       | Some msg => Raise (OSError msg) s
       | None => Ret tt (with_spawned (spawned s ++ [path]) s)
       end.

(** [str(e)] for the exceptions of the model. *)
Definition exn_str (e : exn) : string :=
  match e with
  | IndexError => "list index out of range"
  | ValueError => "0 is not in list"
  | ZeroDivisionError => "integer division or modulo by zero"
  | OSError msg => msg
  end.

(** [str(v)] for an integer. *)
Definition str (v : Z) : string := pretty v.

(** ** The methods of [SlidingPuzzle] *)

(** [get_blank_pos]: row and column of the blank tile. *)
Definition get_blank_pos : M (Z * Z) :=
  n ← gets size;
  index ← tiles_index 0;
  py_divmod index n.

(** [get_neighbors r c]: the cells adjacent to [(r, c)], in the order
    up, down, left, right. *)
Definition get_neighbors (r c : Z) : M (list (Z * Z)) :=
  n ← gets size;
  let neighbors := [] in
  let neighbors := if bool_decide (r > 0)
                   then neighbors ++ [(r - 1, c)] else neighbors in
  let neighbors := if bool_decide (r < n - 1)
                   then neighbors ++ [(r + 1, c)] else neighbors in
  let neighbors := if bool_decide (c > 0)
                   then neighbors ++ [(r, c - 1)] else neighbors in
  let neighbors := if bool_decide (c < n - 1)
                   then neighbors ++ [(r, c + 1)] else neighbors in
  mret neighbors.

(** The body of the loop of [shuffle_board]. *)
Definition shuffle_step (n : Z) : M unit :=
  '(br, bc) ← get_blank_pos;
  neighbors ← get_neighbors br bc;
  match neighbors with
  | [] => mret tt
  | _ :: _ =>
      '(nr, nc) ← random_choice neighbors;
      let blank_index := br * n + bc in
      let tile_index := nr * n + nc in
      x ← tiles_getitem tile_index;
      y ← tiles_getitem blank_index;
      tiles_setitem blank_index x ;;
      tiles_setitem tile_index y
  end.

(** [shuffle_board moves]: [moves] random slides. *)
Definition shuffle_board (moves : Z) : M unit :=
  n ← gets size;
  for_each (py_range 0 moves) (λ _, shuffle_step n).

(** [is_solved] *)
Definition is_solved : M bool :=
  n ← gets size;
  t ← gets tiles;
  mret (bool_decide (t = py_range 1 (n * n) ++ [0])).

(** [draw_board]: the old widgets are destroyed and one widget per cell
    is created; the geometry of the window is not modelled. *)
Definition draw_board : M unit :=
  modify (with_buttons ∅) ;;
  n ← gets size;
  for_each (py_range 0 n) (λ r,
    for_each (py_range 0 n) (λ c,
      value ← tiles_getitem (r * n + c);
      if bool_decide (value = 0)
      then modify (λ s, with_buttons (<[(r, c) := Label]> (buttons s)) s)
      else modify (λ s,
             with_buttons (<[(r, c) := Button (str value)]> (buttons s)) s))).

(** [call_bot_script] *)
Definition call_bot_script : M unit :=
  let script_name := "Bot.py" in
  let script_path := os_path_join script_dir script_name in
  present ← gets (λ s, fs_exists s script_path);
  if negb present then
    messagebox (showerror "Bot Error"
      ("Bot script not found ." +:+ nl +:+ "Expected file: " +:+ script_name))
  else
    try_except (Popen script_path)
      (λ e, messagebox (showerror "Bot Error"
              ("Failed to start bot script:" +:+ nl +:+ exn_str e))).

(** [new_game] *)
Definition new_game : M unit :=
  n ← gets size;
  n ← (if bool_decide (n < 2) then modify (with_size 2) ;; mret 2
       else mret n);
  n ← (if bool_decide (n > 8) then modify (with_size 8) ;; mret 8
       else mret n);
  modify (with_move_count 0) ;;
  modify (with_tiles (py_range 1 (n * n) ++ [0])) ;;
  shuffle_board (n * n * 20) ;;
  draw_board ;;
  m ← gets mode;
  if bool_decide (m = "Bot") then call_bot_script else mret tt.

(** [on_tile_click row col] *)
Definition on_tile_click (row col : Z) : M unit :=
  m ← gets mode;
  if bool_decide (m ≠ "Human") then mret tt else
  n ← gets size;
  let index := row * n + col in
  clicked ← tiles_getitem index;
  if bool_decide (clicked = 0) then mret tt else
  blank_index ← tiles_index 0;
  '(br, bc) ← py_divmod blank_index n;
  if bool_decide (Z.abs (br - row) + Z.abs (bc - col) = 1) then
    x ← tiles_getitem index;
    y ← tiles_getitem blank_index;
    tiles_setitem blank_index x ;;
    tiles_setitem index y ;;
    k ← gets move_count;
    modify (with_move_count (k + 1)) ;;
    draw_board ;;
    solved ← is_solved;
    if (solved : bool) then
      k ← gets move_count;
      messagebox (showinfo "Congratulations!"
        ("You solved the puzzle in " +:+ str k +:+ " moves!"))
    else mret tt
  else mret tt.

(** A state as [__init__] leaves it before its call of [new_game]. *)
Definition init_state (r : nat → nat) (fs : string → bool)
    (pe : option string) : SlidingPuzzle :=
  mkPuzzle 4 "Human" 0 [] ∅ r fs pe [] [].

(** ** Boards *)

(** The solved board of size [n]: the tiles in ascending order, the
    blank last. *)
Definition solved_board (n : Z) : list Z := py_range 1 (n * n) ++ [0].

(** A board of size [n]: every value of [0 .. n*n-1] exactly once. *)
Definition valid_board (n : Z) (t : list Z) : Prop :=
  0 < n ∧ t ≡ₚ seqZ 0 (n * n).

Definition in_grid (n row col : Z) : Prop :=
  0 ≤ row < n ∧ 0 ≤ col < n.

(** Row and column of a flat position (row-major layout). *)
Definition cell_of (n : Z) (k : nat) : Z * Z :=
  (Z.of_nat k `div` n, Z.of_nat k `mod` n).

Definition manhattan (p q : Z * Z) : Z :=
  Z.abs (p.1 - q.1) + Z.abs (p.2 - q.2).

(** The list [t] with the blank written at [ti] and the value [v] at
    [bi]: what the two assignments of a swap leave. *)
Definition swapped (bi ti : nat) (v : Z) (t : list Z) : list Z :=
  <[ti := 0]> (<[bi := v]> t).

(** A legal slide on a board of size [n]: a numbered tile orthogonally
    adjacent to the blank moves into the blank's cell. *)
Inductive slide (n : Z) (t : list Z) : list Z → Prop :=
  | slide_tile (br bc r c v : Z) :
      in_grid n br bc → in_grid n r c →
      t !! Z.to_nat (br * n + bc) = Some 0 →
      t !! Z.to_nat (r * n + c) = Some v →
      v ≠ 0 →
      manhattan (br, bc) (r, c) = 1 →
      slide n t (swapped (Z.to_nat (br * n + bc)) (Z.to_nat (r * n + c)) v t).

(** Reachability by finitely many legal slides. *)
Definition reachable (n : Z) : list Z → list Z → Prop := rtc (slide n).

(** ** Frames: what a method leaves alone *)

(** [preserves f c]: whatever [c] does, normally or by raising, the
    observation [f] of the object is the same afterwards. *)
Definition preserves {A X} (f : SlidingPuzzle → X) (c : M A) : Prop :=
  ∀ s, f (final (c s)) = f s.

(** The observation [f] does not depend on the named field. *)
Definition ignores_tiles {X} (f : SlidingPuzzle → X) : Prop :=
  ∀ t s, f (with_tiles t s) = f s.
Definition ignores_rand {X} (f : SlidingPuzzle → X) : Prop :=
  ∀ r s, f (with_rand r s) = f s.
Definition ignores_buttons {X} (f : SlidingPuzzle → X) : Prop :=
  ∀ b s, f (with_buttons b s) = f s.
Definition ignores_dialogs {X} (f : SlidingPuzzle → X) : Prop :=
  ∀ d s, f (with_dialogs d s) = f s.
Definition ignores_spawned {X} (f : SlidingPuzzle → X) : Prop :=
  ∀ p s, f (with_spawned p s) = f s.

(** Size, move count and tiles: the board state. *)
Definition board_state (s : SlidingPuzzle) : Z * Z * list Z :=
  (size s, move_count s, tiles s).

(** ** Sequences of user actions *)

(** What the user can do in the window: press New Game while the size
    box holds [n], pick a mode, or click the widget of a cell. *)
Inductive action : Type :=
  | NewGame (n : Z)
  | SetMode (m : string)
  | Click (row col : Z).

Definition perform (a : action) : M unit :=
  match a with
  | NewGame n => modify (with_size n) ;; new_game
  | SetMode m => modify (with_mode m)
  | Click row col => on_tile_click row col
  end.

(** The clicks of a sequence of actions hit cells of the grid. *)
Fixpoint clicks_in_grid (acts : list action) (s : SlidingPuzzle) : Prop :=
  match acts with
  | [] => True
  | a :: acts' =>
      match a with
      | Click row col => in_grid (size s) row col
      | _ => True
      end ∧ clicks_in_grid acts' (final (perform a s))
  end.

(** ** Auxiliary definitions of the statements *)

(** The dialogs after an accepted move that left the tiles [t] with
    [k] moves counted: the congratulation is added when [t] is solved. *)
Definition dialogs_after_move (s : SlidingPuzzle) (t : list Z) (k : Z)
  : list dialog :=
  if bool_decide (t = solved_board (size s)) then
    dialogs s ++ [showinfo "Congratulations!"
                    ("You solved the puzzle in " +:+ str k +:+ " moves!")]
  else dialogs s.

(** The size a new game is played at. *)
Definition clamp (n : Z) : Z :=
  if bool_decide (n < 2) then 2 else if bool_decide (n > 8) then 8 else n.

(** The state in which [new_game] starts shuffling. *)
Definition fresh_game (s : SlidingPuzzle) : SlidingPuzzle :=
  with_tiles (solved_board (clamp (size s)))
    (with_move_count 0 (with_size (clamp (size s)) s)).

(** The invariant of play: a size within [2,8] and a valid board. *)
Definition board_ok (s : SlidingPuzzle) : Prop :=
  2 ≤ size s ≤ 8 ∧ valid_board (size s) (tiles s).

(** The clicks on the cells [ps], in order. *)
Definition clicks (ps : list (Z * Z)) : list action :=
  (λ p, Click p.1 p.2) <$> ps.

(** ** Sample states *)

(** A 3x3 game in Human mode with the tiles [t] and [k] moves counted. *)
Definition puzzle3 (t : list Z) (k : Z) : SlidingPuzzle :=
  mkPuzzle 3 "Human" k t ∅ (λ i, i) (λ _, false) None [] [].

(** The board of the scenarios: the blank at row 2, column 1. *)
Definition almost_solved : list Z := [1; 2; 3; 4; 5; 6; 7; 0; 8].

(** A board with the blank at the end of the first row. *)
Definition blank_at_row_end : list Z := [1; 2; 0; 3; 4; 5; 6; 7; 8].

(** A sequence of actions continuing a 3x3 game. *)
Definition sample_actions : list action :=
  [Click 0 0; Click 0 1; SetMode "Bot"; Click 1 1; NewGame 9; Click 7 7].

(** The text of the dialog for a missing bot script. *)
Definition bot_not_found : string :=
  "Bot script not found ." +:+ nl +:+ "Expected file: Bot.py".

(** The text of the dialog for a launch that raised [msg]. *)
Definition bot_start_failed (msg : string) : string :=
  "Failed to start bot script:" +:+ nl +:+ msg.

(** ** Definitions of the further properties *)

Definition ignores_move_count {X} (f : SlidingPuzzle → X) : Prop :=
  ∀ k s, f (with_move_count k s) = f s.

(** What a click leaves alone whatever it does: the size, the mode, the
    random source, the files, the launch outcome and the processes. *)
Definition click_frame (s : SlidingPuzzle)
  : Z * string * (nat → nat) * (string → bool) * option string * list string :=
  (size s, mode s, rand s, fs_exists s, popen_error s, spawned s).

(** The congratulation for a puzzle solved in [k] moves. *)
Definition congratulation (k : Z) : dialog :=
  showinfo "Congratulations!"
    ("You solved the puzzle in " +:+ str k +:+ " moves!").


(** The colour of the cell at flat position [k] on the chequered grid:
    [true] when row + column is even. *)
Definition cell_colour (n : Z) (k : nat) : bool :=
  Z.even ((cell_of n k).1 + (cell_of n k).2).

(** The state in which [new_game] draws the board: the fresh game with
    the shuffled tiles [t] and [20 * N * N] random draws consumed. *)
Definition shuffled_game (s : SlidingPuzzle) (t : list Z) : SlidingPuzzle :=
  with_rand
    (λ k, rand s (Z.to_nat (clamp (size s) * clamp (size s) * 20) + k)%nat)
    (with_tiles t (fresh_game s)).

(** The path of the bot script. *)
Definition bot_path : string := os_path_join script_dir "Bot.py".

(** [__init__]: the fields are initialised (size 4, Human mode, no
    move, no tile, no widget) and a first game is started; the widgets
    of the control bar are not modelled. *)
Definition __init__ : M unit :=
  modify (with_size 4) ;;
  modify (with_mode "Human") ;;
  modify (with_move_count 0) ;;
  modify (with_tiles []) ;;
  modify (with_buttons ∅) ;;
  new_game.

(** The widget [draw_board] makes for a tile: the gray label for the
    blank, a button captioned with the number otherwise. *)
Definition widget_of (v : Z) : widget :=
  if bool_decide (v = 0) then Label else Button (str v).

(** The widgets [b] are those of the cells satisfying [P], drawn from
    the tiles [t] of a grid of size [n], and no others. *)
Definition drawn (n : Z) (t : list Z) (P : Z * Z → Prop)
    (b : gmap (Z * Z) widget) : Prop :=
  ∀ p, (P p → b !! p = widget_of <$> t !! Z.to_nat (p.1 * n + p.2)) ∧
       (¬ P p → b !! p = None).

(** The invariant of play, with solvability: the board is reached from
    the solved board by legal slides. *)
Definition play_ok (s : SlidingPuzzle) : Prop :=
  board_ok s ∧ reachable (size s) (solved_board (size s)) (tiles s).

(** ** Monad laws used in the proofs *)

Lemma bind_ret {A B} (c : M A) (k : A → M B) s a s' :
  c s = Ret a s' → (c ≫= k) s = k a s'.
Proof. intros H. unfold mbind, M_mbind, M_bind. by rewrite H. Qed.

Lemma bind_raise {A B} (c : M A) (k : A → M B) s e s' :
  c s = Raise e s' → (c ≫= k) s = Raise e s'.
Proof. intros H. unfold mbind, M_mbind, M_bind. by rewrite H. Qed.

Lemma bind_gets {A B} (f : SlidingPuzzle → A) (k : A → M B) s :
  (gets f ≫= k) s = k (f s) s.
Proof. done. Qed.

Lemma bind_modify {B} (f : SlidingPuzzle → SlidingPuzzle) (k : unit → M B) s :
  (modify f ≫= k) s = k tt (f s).
Proof. done. Qed.

Lemma bind_mret {A B} (a : A) (k : A → M B) s :
  (mret a ≫= k) s = k a s.
Proof. done. Qed.

(** ** Subscripts and the flat layout *)

Lemma py_subscript_front len i :
  0 ≤ i < Z.of_nat len → py_subscript len i = Some (Z.to_nat i).
Proof. intros H. unfold py_subscript. by rewrite bool_decide_true. Qed.

Lemma py_subscript_back len i :
  - Z.of_nat len ≤ i < 0 →
  py_subscript len i = Some (Z.to_nat (Z.of_nat len + i)).
Proof.
  intros H. unfold py_subscript.
  rewrite bool_decide_false by lia. by rewrite bool_decide_true.
Qed.

Lemma py_subscript_outside len i :
  i < - Z.of_nat len ∨ Z.of_nat len ≤ i → py_subscript len i = None.
Proof.
  intros H. unfold py_subscript.
  rewrite bool_decide_false by lia. by rewrite bool_decide_false by lia.
Qed.

Lemma py_subscript_lt len i k : py_subscript len i = Some k → (k < len)%nat.
Proof.
  unfold py_subscript. repeat case_bool_decide; intros [= <-]; lia.
Qed.

Lemma tiles_getitem_front s i v :
  0 ≤ i → tiles s !! Z.to_nat i = Some v → tiles_getitem i s = Ret v s.
Proof.
  intros Hi Hv. unfold tiles_getitem.
  apply lookup_lt_Some in Hv as Hlt.
  rewrite py_subscript_front by lia. simpl. by rewrite Hv.
Qed.

Lemma tiles_getitem_outside s i :
  i < - Z.of_nat (length (tiles s)) ∨ Z.of_nat (length (tiles s)) ≤ i →
  tiles_getitem i s = Raise IndexError s.
Proof. intros H. unfold tiles_getitem. by rewrite py_subscript_outside. Qed.

Lemma tiles_setitem_front s i v :
  0 ≤ i < Z.of_nat (length (tiles s)) →
  tiles_setitem i v s = Ret tt (with_tiles (<[Z.to_nat i := v]> (tiles s)) s).
Proof. intros Hi. unfold tiles_setitem. by rewrite py_subscript_front. Qed.

Lemma tiles_index_found s k v :
  list_find (λ x, x = v) (tiles s) = Some (k, v) →
  tiles_index v s = Ret (Z.of_nat k) s.
Proof. intros H. unfold tiles_index. by rewrite H. Qed.

Lemma flat_index_bounds n row col :
  in_grid n row col → 0 ≤ row * n + col < n * n.
Proof. unfold in_grid. nia. Qed.

Lemma flat_index_div n row col :
  0 ≤ col < n → (row * n + col) `div` n = row.
Proof. intros H. symmetry. apply (Z.div_unique_pos _ _ _ col); lia. Qed.

Lemma flat_index_mod n row col :
  0 ≤ col < n → (row * n + col) `mod` n = col.
Proof. intros H. symmetry. apply (Z.mod_unique_pos _ _ row); lia. Qed.

Lemma cell_of_flat n row col :
  in_grid n row col → cell_of n (Z.to_nat (row * n + col)) = (row, col).
Proof.
  intros Hg. pose proof (flat_index_bounds _ _ _ Hg) as Hb.
  destruct Hg as [Hr Hc]. unfold cell_of. rewrite Z2Nat.id by lia.
  by rewrite flat_index_div, flat_index_mod.
Qed.

Lemma cell_of_in_grid n k :
  0 < n → Z.of_nat k < n * n → in_grid n (cell_of n k).1 (cell_of n k).2.
Proof.
  intros Hn Hk. unfold in_grid, cell_of. simpl.
  pose proof (Z.mod_pos_bound (Z.of_nat k) n Hn).
  pose proof (Z.div_pos (Z.of_nat k) n).
  pose proof (Z.div_lt_upper_bound (Z.of_nat k) n n).
  lia.
Qed.

Lemma flat_of_cell n k :
  0 < n → Z.to_nat ((cell_of n k).1 * n + (cell_of n k).2) = k.
Proof.
  intros Hn. unfold cell_of. simpl.
  pose proof (Z.div_mod (Z.of_nat k) n). lia.
Qed.

(** ** Facts about valid boards *)

Lemma valid_board_length n t :
  valid_board n t → Z.of_nat (length t) = n * n.
Proof.
  intros [Hn Hp]. rewrite (Permutation_length Hp), length_seqZ. nia.
Qed.

Lemma valid_board_NoDup n t : valid_board n t → NoDup t.
Proof. intros [_ Hp]. rewrite Hp. apply NoDup_seqZ. Qed.

Lemma valid_board_blank n t :
  valid_board n t → ∃ k, list_find (λ x, x = 0) t = Some (k, 0).
Proof.
  intros [Hn Hp].
  assert (0 ∈ t) as Hin by (rewrite Hp; apply elem_of_seqZ; nia).
  destruct (list_find_elem_of (λ x, x = 0) t 0 Hin eq_refl) as [[k x] Hk].
  exists k. apply list_find_Some in Hk as Hk'.
  destruct Hk' as (_ & -> & _). done.
Qed.

Lemma valid_board_blank_unique n t i j :
  valid_board n t → t !! i = Some 0 → t !! j = Some 0 → i = j.
Proof. intros Hv. eapply NoDup_lookup, valid_board_NoDup, Hv. Qed.

Lemma valid_board_lookup n t k :
  valid_board n t → Z.of_nat k < n * n → ∃ v, t !! k = Some v.
Proof.
  intros Hv Hk. apply lookup_lt_is_Some.
  apply valid_board_length in Hv. lia.
Qed.

Lemma swapped_valid n t bi ti v :
  valid_board n t → t !! bi = Some 0 → t !! ti = Some v →
  valid_board n (swapped bi ti v t).
Proof.
  intros [Hn Hp] Hb Ht. split; [done|].
  unfold swapped. by rewrite (Permutation_insert_swap t bi ti 0 v).
Qed.

Lemma swapped_length bi ti v t : length (swapped bi ti v t) = length t.
Proof. unfold swapped. by rewrite !length_insert. Qed.

Lemma swapped_changes t bi ti v :
  t !! ti = Some v → v ≠ 0 → swapped bi ti v t ≠ t.
Proof.
  intros Ht Hv Heq. apply lookup_lt_Some in Ht as Hlt.
  assert (swapped bi ti v t !! ti = Some 0) as H0.
  { unfold swapped. apply list_lookup_insert_eq. by rewrite length_insert. }
  rewrite Heq, Ht in H0. congruence.
Qed.

Lemma solved_board_valid n : 0 < n → valid_board n (solved_board n).
Proof.
  intros Hn. split; [done|]. unfold solved_board, py_range.
  replace (n * n) with (1 + (n * n - 1)) at 2 by lia.
  rewrite seqZ_app by lia.
  change (seqZ 0 1) with [0]. by rewrite Permutation_app_comm.
Qed.

(** ** Loops *)

(** A loop whose body keeps an invariant and never raises returns, with
    the invariant. *)
Lemma for_each_inv {A} (I : SlidingPuzzle → Prop) (xs : list A)
    (body : A → M unit) s :
  I s →
  (∀ x s, x ∈ xs → I s → ∃ s', body x s = Ret tt s' ∧ I s') →
  ∃ s', for_each xs body s = Ret tt s' ∧ I s'.
Proof.
  revert s. induction xs as [|x xs IH]; intros s Hs Hbody; simpl.
  - by exists s.
  - destruct (Hbody x s) as (s1 & Hx & H1); [by left|done|].
    destruct (IH s1 H1) as (s2 & Hxs & H2).
    { intros y s' Hy. apply Hbody. by right. }
    exists s2. split; [|done]. by rewrite (bind_ret _ _ _ _ _ Hx).
Qed.

(** ** Frame rules *)

Section frame.
Context {X : Type} (f : SlidingPuzzle → X).

Lemma preserves_ret {A} (a : A) : preserves f (mret a).
Proof. by intros s. Qed.

Lemma preserves_bind {A B} (c : M A) (k : A → M B) :
  preserves f c → (∀ a, preserves f (k a)) → preserves f (c ≫= k).
Proof.
  intros Hc Hk s. specialize (Hc s).
  unfold mbind, M_mbind, M_bind. destruct (c s) as [a s'|e s']; simpl in *.
  - by rewrite Hk.
  - done.
Qed.

Lemma preserves_raise {A} e : preserves f (raise (A := A) e).
Proof. by intros s. Qed.

Lemma preserves_gets {A} (g : SlidingPuzzle → A) : preserves f (gets g).
Proof. by intros s. Qed.

Lemma preserves_modify g : (∀ s, f (g s) = f s) → preserves f (modify g).
Proof. intros H s. apply H. Qed.

Lemma preserves_try {A} (c : M A) h :
  preserves f c → (∀ e, preserves f (h e)) → preserves f (try_except c h).
Proof.
  intros Hc Hh s. specialize (Hc s).
  unfold try_except. destruct (c s) as [a s'|e s']; simpl in *.
  - done.
  - by rewrite Hh.
Qed.

Lemma preserves_for_each {A} (xs : list A) body :
  (∀ x, preserves f (body x)) → preserves f (for_each xs body).
Proof.
  intros Hb. induction xs as [|x xs IH]; simpl.
  - apply preserves_ret.
  - apply preserves_bind; [apply Hb|]. intros _. apply IH.
Qed.

Lemma preserves_getitem i : preserves f (tiles_getitem i).
Proof. intros s. unfold tiles_getitem. by destruct (_ ≫= _). Qed.

Lemma preserves_index v : preserves f (tiles_index v).
Proof.
  intros s. unfold tiles_index. by destruct (list_find _ _) as [[]|].
Qed.

Lemma preserves_divmod a n : preserves f (py_divmod a n).
Proof. intros s. unfold py_divmod. by case_bool_decide. Qed.

Lemma preserves_setitem i v :
  ignores_tiles f → preserves f (tiles_setitem i v).
Proof.
  intros Hf s. unfold tiles_setitem.
  destruct (py_subscript _ _); simpl; [apply Hf|done].
Qed.

Lemma preserves_choice {A} (xs : list A) :
  ignores_rand f → preserves f (random_choice xs).
Proof.
  intros Hf s. unfold random_choice.
  destruct (xs !! _); simpl; [apply Hf|done].
Qed.

Lemma preserves_messagebox d : ignores_dialogs f → preserves f (messagebox d).
Proof. intros Hf s. apply Hf. Qed.

Lemma preserves_Popen path : ignores_spawned f → preserves f (Popen path).
Proof.
  intros Hf s. unfold Popen. destruct (popen_error s); simpl; [done|apply Hf].
Qed.
End frame.

Create HintDb frame.
#[export] Hint Resolve preserves_ret preserves_raise preserves_gets
  preserves_getitem preserves_index preserves_divmod preserves_setitem
  preserves_choice preserves_messagebox preserves_Popen : frame.

Ltac frame_step :=
  lazymatch goal with
  | |- preserves _ (_ ≫= _) => apply preserves_bind; [|intros ?]
  | |- preserves _ (try_except _ _) => apply preserves_try; [|intros ?]
  | |- preserves _ (for_each _ _) => apply preserves_for_each; intros ?
  | |- preserves _ (modify _) => apply preserves_modify; intros ?
  | |- preserves _ (if ?b then _ else _) => destruct b
  | |- preserves _ (match ?x with _ => _ end) => destruct x
  end.
Ltac frame := repeat (cbv beta; frame_step); eauto with frame.

Section frame_methods.
Context {X : Type} (f : SlidingPuzzle → X).

Lemma preserves_get_blank_pos : preserves f get_blank_pos.
Proof. unfold get_blank_pos. frame. Qed.

Lemma preserves_get_neighbors r c : preserves f (get_neighbors r c).
Proof. unfold get_neighbors. frame. Qed.

Lemma preserves_is_solved : preserves f is_solved.
Proof. unfold is_solved. frame. Qed.

Lemma preserves_shuffle_step n :
  ignores_tiles f → ignores_rand f → preserves f (shuffle_step n).
Proof.
  intros Ht Hr. unfold shuffle_step.
  apply preserves_bind; [apply preserves_get_blank_pos|]. intros [br bc].
  apply preserves_bind; [apply preserves_get_neighbors|]. intros nb.
  frame.
Qed.

Lemma preserves_shuffle_board moves :
  ignores_tiles f → ignores_rand f → preserves f (shuffle_board moves).
Proof.
  intros Ht Hr. unfold shuffle_board.
  apply preserves_bind; [apply preserves_gets|]. intros n.
  apply preserves_for_each. intros _. by apply preserves_shuffle_step.
Qed.

Lemma preserves_draw_board : ignores_buttons f → preserves f draw_board.
Proof. intros Hb. unfold draw_board. frame. Qed.

Lemma preserves_call_bot_script :
  ignores_dialogs f → ignores_spawned f → preserves f call_bot_script.
Proof. intros Hd Hs. unfold call_bot_script. frame. Qed.
End frame_methods.

(** ** Drawing never fails on a board that fills the grid *)

Lemma draw_board_returns s :
  size s * size s ≤ Z.of_nat (length (tiles s)) →
  ∃ b, draw_board s = Ret tt (with_buttons b s).
Proof.
  intros Hlen. unfold draw_board. rewrite bind_modify, bind_gets. simpl.
  set (I := λ s', ∃ b, s' = with_buttons b s).
  destruct (for_each_inv I (py_range 0 (size s))
    (λ r, for_each (py_range 0 (size s)) (λ c,
       value ← tiles_getitem (r * size s + c);
       if bool_decide (value = 0)
       then modify (λ s, with_buttons (<[(r, c) := Label]> (buttons s)) s)
       else modify (λ s,
          with_buttons (<[(r, c) := Button (str value)]> (buttons s)) s)))
    (with_buttons ∅ s)) as (s' & Hrun & b & ->).
  - by exists ∅.
  - intros r s1 Hr H1. apply for_each_inv; [done|].
    intros c s2 Hc [b2 ->].
    apply elem_of_seqZ in Hr, Hc.
    assert (0 ≤ r * size s + c < Z.of_nat (length (tiles s))) as Hi by nia.
    destruct (lookup_lt_is_Some_2 (tiles s) (Z.to_nat (r * size s + c)))
      as [v Hv]; [lia|].
    rewrite (bind_ret _ _ _ v (with_buttons b2 s))
      by (apply tiles_getitem_front; [lia|done]).
    case_bool_decide; eexists; (split; [reflexivity|]); by eexists.
  - by exists b.
Qed.

(** ** Clicks on a valid board *)

Lemma is_solved_ret s :
  is_solved s = Ret (bool_decide (tiles s = solved_board (size s))) s.
Proof. done. Qed.

(** The blank found by [index] is the blank of a valid board. *)
Lemma valid_board_find_blank n t bi :
  valid_board n t → t !! bi = Some 0 →
  list_find (λ x, x = 0) t = Some (bi, 0).
Proof.
  intros Hv Hb. destruct (valid_board_blank _ _ Hv) as [k Hk].
  apply list_find_Some in Hk as Hk'. destruct Hk' as (Hk' & _).
  by rewrite (valid_board_blank_unique _ _ _ _ Hv Hb Hk').
Qed.

Section click.
Context (s : SlidingPuzzle) (row col : Z) (bi k : nat) (v : Z).
Hypothesis Hmode : mode s = "Human".
Hypothesis Hvalid : valid_board (size s) (tiles s).
Hypothesis Hsub :
  py_subscript (length (tiles s)) (row * size s + col) = Some k.
Hypothesis Hblank : tiles s !! bi = Some 0.
Hypothesis Hcell : tiles s !! k = Some v.

(** The common start of a click: the mode test, the subscript and the
    search of the blank. *)
Lemma on_tile_click_start :
  on_tile_click row col s =
  (if bool_decide (v = 0) then mret tt else
   if bool_decide (manhattan (cell_of (size s) bi) (row, col) = 1) then
     x ← tiles_getitem (row * size s + col);
     y ← tiles_getitem (Z.of_nat bi);
     tiles_setitem (Z.of_nat bi) x ;;
     tiles_setitem (row * size s + col) y ;;
     c ← gets move_count;
     modify (with_move_count (c + 1)) ;;
     draw_board ;;
     solved ← is_solved;
     if (solved : bool) then
       c ← gets move_count;
       messagebox (showinfo "Congratulations!"
         ("You solved the puzzle in " +:+ str c +:+ " moves!"))
     else mret tt
   else mret tt) s.
Proof.
  pose proof (valid_board_find_blank _ _ _ Hvalid Hblank) as Hk.
  unfold on_tile_click. rewrite bind_gets, Hmode.
  rewrite bool_decide_false by (by intros []).
  rewrite bind_gets.
  rewrite (bind_ret _ _ _ v s)
    by (unfold tiles_getitem; rewrite Hsub; simpl; by rewrite Hcell).
  case_bool_decide; [done|].
  rewrite (bind_ret _ _ _ (Z.of_nat bi) s) by (by apply tiles_index_found).
  unfold py_divmod. destruct Hvalid as [Hn Hp].
  rewrite bool_decide_false by lia. by rewrite bind_mret.
Qed.

(** A click on the blank, or on a tile that is not at distance one of
    the blank, changes nothing. *)
Lemma on_tile_click_rejected :
  ¬ (v ≠ 0 ∧ manhattan (cell_of (size s) bi) (row, col) = 1) →
  on_tile_click row col s = Ret tt s.
Proof.
  intros Hno. rewrite on_tile_click_start.
  repeat case_bool_decide; tauto.
Qed.

(** A click on a tile at distance one of the blank swaps the two,
    counts the move, redraws, and congratulates when solved. *)
Lemma on_tile_click_accepted :
  v ≠ 0 →
  manhattan (cell_of (size s) bi) (row, col) = 1 →
  ∃ b, on_tile_click row col s =
    Ret tt (with_dialogs
              (dialogs_after_move s (swapped bi k v (tiles s))
                 (move_count s + 1))
              (with_buttons b
                 (with_move_count (move_count s + 1)
                    (with_tiles (swapped bi k v (tiles s)) s)))).
Proof.
  intros Hv0 Hd. rewrite on_tile_click_start.
  pose proof (valid_board_length _ _ Hvalid) as Hlen.
  assert (Z.of_nat bi < size s * size s) as Hbi
    by (apply lookup_lt_Some in Hblank; lia).
  rewrite bool_decide_false, bool_decide_true by done.
  rewrite (bind_ret _ _ _ v s)
    by (unfold tiles_getitem; rewrite Hsub; simpl; by rewrite Hcell).
  rewrite (bind_ret _ _ _ 0 s)
    by (apply tiles_getitem_front; [lia|by rewrite Nat2Z.id]).
  erewrite bind_ret by (apply tiles_setitem_front; lia).
  erewrite bind_ret
    by (unfold tiles_setitem; simpl; rewrite length_insert, Hsub;
        reflexivity).
  rewrite bind_gets, bind_modify. simpl. rewrite Nat2Z.id.
  fold (swapped bi k v (tiles s)).
  set (t' := swapped bi k v (tiles s)).
  set (s1 := with_move_count (move_count s + 1) (with_tiles t' s)).
  destruct (draw_board_returns s1) as [b Hdraw].
  { simpl. unfold t'. rewrite swapped_length. lia. }
  rewrite (bind_ret _ _ _ _ _ Hdraw).
  rewrite (bind_ret _ _ _ _ _ (is_solved_ret _)).
  exists b. unfold dialogs_after_move. simpl.
  case_bool_decide; [reflexivity|]. by destruct s.
Qed.
End click.

(** A click on a cell of the grid denotes that cell. *)
Lemma in_grid_subscript s row col :
  valid_board (size s) (tiles s) → in_grid (size s) row col →
  py_subscript (length (tiles s)) (row * size s + col)
  = Some (Z.to_nat (row * size s + col)).
Proof.
  intros Hv Hg. apply py_subscript_front.
  rewrite (valid_board_length _ _ Hv). by apply flat_index_bounds.
Qed.

(** ** One step of the shuffle *)

Lemma get_blank_pos_valid s bi :
  valid_board (size s) (tiles s) → tiles s !! bi = Some 0 →
  get_blank_pos s = Ret (cell_of (size s) bi) s.
Proof.
  intros Hv Hb. pose proof (valid_board_find_blank _ _ _ Hv Hb) as Hk.
  unfold get_blank_pos. rewrite bind_gets.
  rewrite (bind_ret _ _ _ (Z.of_nat bi) s) by (by apply tiles_index_found).
  unfold py_divmod. destruct Hv as [Hn _]. by rewrite bool_decide_false by lia.
Qed.

(** The neighbours listed for a cell of the grid are cells of the grid
    at distance one, and there is at least one when the grid has two
    rows. *)
Lemma get_neighbors_adjacent s r c :
  in_grid (size s) r c →
  ∃ nb, get_neighbors r c s = Ret nb s ∧
    Forall (λ p, in_grid (size s) p.1 p.2 ∧ manhattan (r, c) p = 1) nb ∧
    (2 ≤ size s → nb ≠ []).
Proof.
  intros [Hr Hc]. unfold get_neighbors. rewrite bind_gets.
  eexists. split; [reflexivity|].
  repeat case_bool_decide; simpl; (split;
    [ repeat constructor; unfold manhattan; simpl; lia
    | intros; first [ discriminate | lia ] ]).
Qed.

Lemma random_choice_member {A} (xs : list A) s :
  xs ≠ [] →
  ∃ x, x ∈ xs ∧
    random_choice xs s = Ret x (with_rand (λ k, rand s (S k)) s).
Proof.
  intros Hne. unfold random_choice.
  assert (rand s 0%nat `mod` length xs < length xs)%nat as Hlt.
  { apply Nat.mod_upper_bound. by destruct xs. }
  destruct (lookup_lt_is_Some_2 _ _ Hlt) as [x Hx].
  exists x. rewrite Hx. split; [|done]. by eapply list_elem_of_lookup_2.
Qed.

(** Distinct cells have distinct flat positions. *)
Lemma adjacent_flat_ne n br bc r c :
  in_grid n br bc → in_grid n r c → manhattan (br, bc) (r, c) = 1 →
  Z.to_nat (br * n + bc) ≠ Z.to_nat (r * n + c).
Proof.
  intros Hb Hg Hd Heq.
  pose proof (cell_of_flat _ _ _ Hb) as H1.
  pose proof (cell_of_flat _ _ _ Hg) as H2.
  rewrite Heq, H2 in H1. injection H1 as -> ->.
  unfold manhattan in Hd. simpl in Hd. lia.
Qed.

(** A step of the shuffle on a valid board either finds no neighbour
    (a grid of one cell) and does nothing, or performs one legal slide;
    it consumes at most one random draw and touches nothing else. *)
Lemma shuffle_step_valid s :
  valid_board (size s) (tiles s) →
  ∃ t' r', shuffle_step (size s) s = Ret tt (with_rand r' (with_tiles t' s)) ∧
    valid_board (size s) t' ∧
    (slide (size s) (tiles s) t' ∨ (size s < 2 ∧ t' = tiles s)).
Proof.
  intros Hv.
  destruct (valid_board_blank _ _ Hv) as [bi Hk].
  apply list_find_Some in Hk as Hb. destruct Hb as (Hb & _).
  pose proof (valid_board_length _ _ Hv) as Hlen.
  assert (0 < size s) as Hn by apply Hv.
  assert (Z.of_nat bi < size s * size s) as Hbi
    by (apply lookup_lt_Some in Hb; lia).
  pose proof (cell_of_in_grid _ _ Hn Hbi) as Hbg.
  pose proof (flat_of_cell (size s) bi Hn) as Hflat.
  destruct (cell_of (size s) bi) as [br bc] eqn:Hcell. simpl in *.
  unfold shuffle_step.
  rewrite (bind_ret _ _ _ (br, bc) s)
    by (rewrite <- Hcell; by apply get_blank_pos_valid).
  destruct (get_neighbors_adjacent s br bc Hbg) as (nb & Hnb & Hadj & Hne).
  rewrite (bind_ret _ _ _ _ _ Hnb).
  destruct nb as [|p nb'].
  { exists (tiles s), (rand s). split; [by destruct s|]. split; [done|].
    right. split; [|done]. destruct (decide (size s < 2)); [done|].
    exfalso. apply Hne; [lia|done]. }
  destruct (random_choice_member (p :: nb') s) as ([nr nc] & Hin & Hch);
    [done|].
  rewrite (bind_ret _ _ _ _ _ Hch).
  rewrite Forall_forall in Hadj. destruct (Hadj _ Hin) as [Hg Hd].
  simpl in Hg. pose proof (flat_index_bounds _ _ _ Hg) as Hti.
  pose proof (flat_index_bounds _ _ _ Hbg) as Hbb.
  destruct (valid_board_lookup (size s) (tiles s)
    (Z.to_nat (nr * size s + nc)) Hv) as [v Hvv]; [lia|].
  set (s1 := with_rand (λ k, rand s (S k)) s).
  rewrite (bind_ret _ _ _ v s1) by (apply tiles_getitem_front; [lia|done]).
  rewrite (bind_ret _ _ _ 0 s1)
    by (apply tiles_getitem_front; [lia|by rewrite Hflat]).
  erewrite bind_ret by (apply tiles_setitem_front; simpl; lia).
  rewrite tiles_setitem_front by (simpl; rewrite length_insert; lia).
  simpl. rewrite Hflat.
  fold (swapped bi (Z.to_nat (nr * size s + nc)) v (tiles s)).
  eexists _, _. split; [reflexivity|]. split.
  - by apply swapped_valid.
  - left. rewrite <- Hflat. apply slide_tile; try done.
    + by rewrite Hflat.
    + intros ->. pose proof (adjacent_flat_ne _ _ _ _ _ Hbg Hg Hd) as Hneq.
      apply Hneq. rewrite Hflat.
      by apply (valid_board_blank_unique _ _ _ _ Hv Hb Hvv).
Qed.

(** ** The shuffle and the new game *)

Lemma reachable_step n t1 t2 t3 :
  reachable n t1 t2 → slide n t2 t3 ∨ (n < 2 ∧ t3 = t2) → reachable n t1 t3.
Proof.
  intros H12 [H23|[_ ->]]; [|done]. eapply rtc_r; eauto.
Qed.

(** Shuffling a valid board returns, whatever the random draws, with a
    valid board reached by legal slides; only the tiles and the random
    source have changed. *)
Lemma shuffle_board_valid s moves :
  valid_board (size s) (tiles s) →
  ∃ t' r', shuffle_board moves s = Ret tt (with_rand r' (with_tiles t' s)) ∧
    valid_board (size s) t' ∧ reachable (size s) (tiles s) t'.
Proof.
  intros Hv. unfold shuffle_board. rewrite bind_gets.
  set (I := λ s', ∃ t' r', s' = with_rand r' (with_tiles t' s) ∧
    valid_board (size s) t' ∧ reachable (size s) (tiles s) t').
  destruct (for_each_inv I (py_range 0 moves) (λ _, shuffle_step (size s)) s)
    as (s' & Hrun & t' & r' & -> & Hv' & Hr').
  - exists (tiles s), (rand s). split; [by destruct s|]. split; [done|].
    apply rtc_refl.
  - intros _ s1 _ (t1 & r1 & -> & Hv1 & Hr1).
    destruct (shuffle_step_valid (with_rand r1 (with_tiles t1 s)) Hv1)
      as (t2 & r2 & Hstep & Hv2 & Hs2).
    simpl in *. eexists. split; [exact Hstep|].
    exists t2, r2. split; [done|]. split; [done|].
    by eapply reachable_step.
  - by exists t', r'.
Qed.

(** The bot launcher always returns; it can only add a dialog or a
    process. *)
Lemma call_bot_script_returns s :
  ∃ p d, call_bot_script s = Ret tt (with_dialogs d (with_spawned p s)).
Proof.
  unfold call_bot_script. rewrite bind_gets.
  destruct (fs_exists s _); simpl.
  - unfold try_except, Popen. destruct (popen_error s) as [msg|].
    + exists (spawned s). eexists. reflexivity.
    + eexists. exists (dialogs s). reflexivity.
  - exists (spawned s). eexists. reflexivity.
Qed.

Lemma clamp_range n : 2 ≤ clamp n ≤ 8.
Proof. unfold clamp. repeat case_bool_decide; lia. Qed.

Lemma new_game_unfold s :
  new_game s =
  (shuffle_board (clamp (size s) * clamp (size s) * 20) ;;
   draw_board ;;
   m ← gets mode;
   if bool_decide (m = "Bot") then call_bot_script else mret tt)
    (fresh_game s).
Proof.
  unfold new_game, fresh_game, clamp.
  destruct s as [n m k t b r fs pe p d].
  cbv [mbind M_mbind M_bind modify mret M_mret M_ret gets size].
  repeat case_bool_decide; try lia; reflexivity.
Qed.

(** A new game always returns: the size is the clamped one, the move
    count is 0, the board is valid and reached from the solved board by
    legal slides; the mode, the files and the launch outcome are as
    before. *)
Lemma new_game_returns s :
  ∃ t' b r' p d,
    new_game s =
      Ret tt (mkPuzzle (clamp (size s)) (mode s) 0 t' b r'
                (fs_exists s) (popen_error s) p d) ∧
    valid_board (clamp (size s)) t' ∧
    reachable (clamp (size s)) (solved_board (clamp (size s))) t'.
Proof.
  rewrite new_game_unfold.
  pose proof (clamp_range (size s)) as Hc.
  set (n := clamp (size s)) in *.
  assert (valid_board (size (fresh_game s)) (tiles (fresh_game s))) as Hv0
    by (apply solved_board_valid; simpl; fold n; lia).
  destruct (shuffle_board_valid (fresh_game s) (n * n * 20) Hv0)
    as (t' & r' & Hsh & Hv' & Hr').
  rewrite (bind_ret _ _ _ _ _ Hsh).
  set (s1 := with_rand r' (with_tiles t' (fresh_game s))).
  destruct (draw_board_returns s1) as [b Hdraw].
  { simpl. fold n. simpl in Hv'. fold n in Hv'.
    rewrite (valid_board_length _ _ Hv'). lia. }
  rewrite (bind_ret _ _ _ _ _ Hdraw). rewrite bind_gets.
  case_bool_decide.
  - destruct (call_bot_script_returns (with_buttons b s1)) as (p & d & Hbot).
    rewrite Hbot. by exists t', b, r', p, d.
  - by exists t', b, r', (spawned s), (dialogs s).
Qed.

(** ** Legal slides can be undone *)

Lemma slide_valid n t t' : valid_board n t → slide n t t' → valid_board n t'.
Proof. intros Hv Hs. destruct Hs. by apply swapped_valid. Qed.

Lemma swapped_back bi ti v t :
  bi ≠ ti → t !! bi = Some 0 → t !! ti = Some v →
  swapped ti bi v (swapped bi ti v t) = t.
Proof.
  intros Hne Hb Ht. unfold swapped.
  rewrite list_insert_insert_eq.
  rewrite (list_insert_insert_ne _ ti bi) by done.
  rewrite list_insert_insert_eq.
  by rewrite (list_insert_id _ ti v), (list_insert_id _ bi 0).
Qed.

Lemma slide_sym n t t' : valid_board n t → slide n t t' → slide n t' t.
Proof.
  intros Hv Hs. destruct Hs as [br bc r c v Hbg Hg Hb Ht Hv0 Hd].
  pose proof (adjacent_flat_ne _ _ _ _ _ Hbg Hg Hd) as Hne.
  set (bi := Z.to_nat (br * n + bc)) in *.
  set (ti := Z.to_nat (r * n + c)) in *.
  apply lookup_lt_Some in Hb as Hbl. apply lookup_lt_Some in Ht as Htl.
  rewrite <- (swapped_back bi ti v t Hne Hb Ht) at 2.
  apply slide_tile; try done.
  - unfold swapped. apply list_lookup_insert_eq. by rewrite length_insert.
  - unfold swapped. rewrite list_lookup_insert_ne by done.
    by apply list_lookup_insert_eq.
  - unfold manhattan in *. simpl in *. lia.
Qed.

Lemma reachable_sym n t t' :
  valid_board n t → reachable n t t' → valid_board n t' ∧ reachable n t' t.
Proof.
  intros Hv Hr. induction Hr as [t|t1 t2 t3 H12 H23 IH].
  - split; [done|apply rtc_refl].
  - destruct (IH (slide_valid _ _ _ Hv H12)) as [Hv3 H32].
    split; [done|]. eapply rtc_r; [exact H32|]. by apply slide_sym.
Qed.

(** ** Clicks keep the board valid *)

(** In Bot mode a click returns at once. *)
Lemma on_tile_click_bot s row col :
  mode s ≠ "Human" → on_tile_click row col s = Ret tt s.
Proof.
  intros Hm. unfold on_tile_click. rewrite bind_gets.
  by rewrite bool_decide_true.
Qed.

(** A click on a cell of the grid of a valid board returns; it either
    changes nothing or performs one legal slide and counts it. *)
Lemma on_tile_click_in_grid s row col :
  valid_board (size s) (tiles s) → in_grid (size s) row col →
  ∃ s', on_tile_click row col s = Ret tt s' ∧ size s' = size s ∧
    (s' = s ∨
     (slide (size s) (tiles s) (tiles s') ∧
      move_count s' = move_count s + 1)).
Proof.
  intros Hv Hg.
  destruct (decide (mode s = "Human")) as [Hm|Hm].
  2: { exists s. rewrite on_tile_click_bot by done. auto. }
  pose proof (in_grid_subscript _ _ _ Hv Hg) as Hsub.
  pose proof (flat_index_bounds _ _ _ Hg) as Hi.
  destruct (valid_board_blank _ _ Hv) as [bi Hk].
  apply list_find_Some in Hk as Hb. destruct Hb as (Hb & _).
  destruct (valid_board_lookup _ _ (Z.to_nat (row * size s + col)) Hv)
    as [v Hc]; [lia|].
  destruct (decide (v ≠ 0 ∧ manhattan (cell_of (size s) bi) (row, col) = 1))
    as [[Hv0 Hd]|Hno].
  - destruct (on_tile_click_accepted s row col bi _ v Hm Hv Hsub Hb Hc Hv0 Hd)
      as [b Hrun].
    eexists. split; [exact Hrun|]. split; [done|]. right. simpl.
    split; [|done].
    assert (0 < size s) as Hn by apply Hv.
    assert (Z.of_nat bi < size s * size s) as Hbi
      by (apply lookup_lt_Some in Hb; rewrite <- (valid_board_length _ _ Hv);
          lia).
    pose proof (cell_of_in_grid _ _ Hn Hbi) as Hbg.
    pose proof (flat_of_cell (size s) bi Hn) as Hflat.
    destruct (cell_of (size s) bi) as [br bc]. simpl in *.
    rewrite <- Hflat. apply slide_tile; try done. by rewrite Hflat.
  - exists s. split; [|auto].
    by eapply (on_tile_click_rejected s row col bi _ v).
Qed.

(** A check of validity by computation. *)
Lemma valid_board_check n t :
  0 < n → NoDup t → Z.of_nat (length t) = n * n →
  Forall (λ v, 0 ≤ v < n * n) t → valid_board n t.
Proof.
  intros Hn Hnd Hlen Hall. split; [done|].
  apply submseteq_length_Permutation.
  - apply NoDup_submseteq; [done|]. intros x Hx.
    rewrite Forall_forall in Hall. apply elem_of_seqZ.
    specialize (Hall x Hx). lia.
  - rewrite length_seqZ. lia.
Qed.

(** ** Running a sequence of actions *)

Lemma perform_board_ok a s :
  match a with NewGame _ => True | _ => board_ok s end →
  match a with Click row col => in_grid (size s) row col | _ => True end →
  ∃ s', perform a s = Ret tt s' ∧ board_ok s'.
Proof.
  destruct a as [n|m|row col]; simpl; intros Hok Hg.
  - rewrite bind_modify.
    destruct (new_game_returns (with_size n s))
      as (t' & b & r' & p & d & Hrun & Hv & _).
    eexists. split; [exact Hrun|]. split; [apply clamp_range|done].
  - eexists. split; [reflexivity|]. done.
  - destruct Hok as [Hn Hv].
    destruct (on_tile_click_in_grid s row col Hv Hg)
      as (s' & Hrun & Hsz & Hcase).
    exists s'. split; [done|]. destruct Hcase as [->|[Hs _]]; [done|].
    split; [lia|]. rewrite Hsz. by eapply slide_valid.
Qed.

Lemma run_board_ok acts s :
  board_ok s → clicks_in_grid acts s →
  ∃ s', for_each acts perform s = Ret tt s' ∧ board_ok s'.
Proof.
  revert s. induction acts as [|a acts IH]; intros s Hok Hg; simpl.
  - by exists s.
  - destruct Hg as [Ha Hrest].
    destruct (perform_board_ok a s) as (s1 & Hrun & Hok1).
    { by destruct a. }
    { by destruct a. }
    rewrite Hrun in Hrest. simpl in Hrest.
    destruct (IH s1 Hok1 Hrest) as (s2 & Hrun2 & Hok2).
    exists s2. split; [|done]. by rewrite (bind_ret _ _ _ _ _ Hrun).
Qed.

Lemma slide_changes n t t' : slide n t t' → t' ≠ t.
Proof. intros Hs. destruct Hs. by eapply swapped_changes. Qed.

Lemma valid_board_once n t v :
  valid_board n t → 0 ≤ v < n * n →
  ∃ k, t !! k = Some v ∧ ∀ k', t !! k' = Some v → k' = k.
Proof.
  intros Hv Hr. pose proof (valid_board_NoDup _ _ Hv) as Hnd.
  destruct Hv as [Hn Hp].
  assert (v ∈ t) as Hin by (rewrite Hp; apply elem_of_seqZ; lia).
  apply list_elem_of_lookup_1 in Hin as [k Hk].
  exists k. split; [done|]. intros k' Hk'. by eapply NoDup_lookup.
Qed.

(** The position a subscript within [-len, len) denotes. *)
Lemma py_subscript_mod len i :
  - Z.of_nat len ≤ i < Z.of_nat len →
  py_subscript len i = Some (Z.to_nat (i `mod` Z.of_nat len)).
Proof.
  intros Hi. destruct (decide (0 ≤ i)) as [Hpos|Hneg].
  - rewrite py_subscript_front by lia. by rewrite Z.mod_small by lia.
  - rewrite py_subscript_back by lia. do 2 f_equal.
    apply (Z.mod_unique_pos _ _ (-1)); lia.
Qed.

Lemma almost_solved_valid : valid_board 3 almost_solved.
Proof.
  apply valid_board_check; [lia| |reflexivity|].
  - apply (bool_decide_unpack _). by vm_compute.
  - unfold almost_solved. repeat constructor; lia.
Qed.

Lemma blank_at_row_end_valid : valid_board 3 blank_at_row_end.
Proof.
  apply valid_board_check; [lia| |reflexivity|].
  - apply (bool_decide_unpack _). by vm_compute.
  - unfold blank_at_row_end. repeat constructor; lia.
Qed.

(** ** Legal slides are what accepted clicks do *)

(** A legal slide is performed by clicking the tile that slides. *)
Lemma slide_by_click s t' :
  mode s = "Human" → valid_board (size s) (tiles s) →
  slide (size s) (tiles s) t' →
  ∃ row col s', in_grid (size s) row col ∧
    on_tile_click row col s = Ret tt s' ∧
    tiles s' = t' ∧ size s' = size s ∧ mode s' = "Human".
Proof.
  intros Hm Hv Hs. destruct Hs as [br bc r c v Hbg Hg Hb Ht Hv0 Hd].
  exists r, c.
  destruct (on_tile_click_accepted s r c (Z.to_nat (br * size s + bc))
              (Z.to_nat (r * size s + c)) v) as [b Hrun]; try done.
  - by apply in_grid_subscript.
  - by rewrite cell_of_flat.
  - eexists. split; [done|]. split; [exact Hrun|]. done.
Qed.

(** A board reached by legal slides is reached by clicks. *)
Lemma reachable_by_clicks n t t' :
  reachable n t t' →
  ∀ s, size s = n → tiles s = t → mode s = "Human" → valid_board n t →
  ∃ ps s', for_each (clicks ps) perform s = Ret tt s' ∧
    tiles s' = t' ∧ size s' = n ∧ mode s' = "Human".
Proof.
  intros Hr. induction Hr as [t|t1 t2 t3 H12 H23 IH];
    intros s Hn Ht Hm Hv.
  - by exists [], s.
  - subst n t1.
    destruct (slide_by_click s t2 Hm Hv H12)
      as (row & col & s1 & _ & Hrun & Ht1 & Hn1 & Hm1).
    destruct (IH s1 Hn1 Ht1 Hm1) as (ps & s2 & Hrun2 & Ht2 & Hn2 & Hm2).
    { by eapply slide_valid. }
    exists ((row, col) :: ps), s2. split; [|done].
    simpl. by rewrite (bind_ret _ _ _ _ _ Hrun).
Qed.

(** * The properties of the puzzle engine *)

(** C1, move legality. On a valid board, in Human mode, a click on a
    cell [(row, col)] of the grid returns, and it changes the tiles if
    and only if the cell does not hold the blank and its Manhattan
    distance to the blank's cell is exactly 1; in every other case the
    tiles are as before. *)
Theorem move_legality s row col bi :
  mode s = "Human" →
  valid_board (size s) (tiles s) →
  in_grid (size s) row col →
  tiles s !! bi = Some 0 →
  ∃ s', on_tile_click row col s = Ret tt s' ∧
    (tiles s' ≠ tiles s ↔
       tiles s !! Z.to_nat (row * size s + col) ≠ Some 0 ∧
       manhattan (cell_of (size s) bi) (row, col) = 1).
Proof.
  intros Hm Hv Hg Hb.
  pose proof (in_grid_subscript _ _ _ Hv Hg) as Hsub.
  pose proof (flat_index_bounds _ _ _ Hg) as Hi.
  destruct (valid_board_lookup _ _ (Z.to_nat (row * size s + col)) Hv)
    as [v Hc]; [lia|].
  rewrite Hc.
  destruct (decide (v ≠ 0 ∧ manhattan (cell_of (size s) bi) (row, col) = 1))
    as [[Hv0 Hd]|Hno].
  - destruct (on_tile_click_accepted s row col bi _ v Hm Hv Hsub Hb Hc Hv0 Hd)
      as [b Hrun].
    eexists. split; [exact Hrun|]. simpl. split.
    + intros _. split; [congruence|done].
    + intros _. by apply swapped_changes.
  - exists s. split; [by eapply on_tile_click_rejected|].
    split; [done|]. intros [Hv0 Hd]. exfalso. apply Hno.
    split; [congruence|done].
Qed.

Lemma move_legality_witness :
  ∃ s', on_tile_click 2 2 (puzzle3 almost_solved 0) = Ret tt s' ∧
    (tiles s' ≠ almost_solved ↔
       almost_solved !! 8%nat ≠ Some 0 ∧
       manhattan (cell_of 3 7) (2, 2) = 1).
Proof.
  apply (move_legality (puzzle3 almost_solved 0) 2 2 7).
  - reflexivity.
  - exact almost_solved_valid.
  - unfold in_grid. simpl. lia.
  - reflexivity.
Defined.

(** C2, permutation invariant. After a new game (whatever the size box
    holds, so in particular for every N in [2,8]) followed by any
    sequence of new games, mode changes and clicks on cells of the grid,
    every call has returned, the size is within [2,8] and the tiles are
    a permutation of [0 .. N*N-1]: every value occurs at exactly one
    position, so there is exactly one blank. *)
Theorem permutation_invariant n acts s :
  clicks_in_grid (NewGame n :: acts) s →
  ∃ s', for_each (NewGame n :: acts) perform s = Ret tt s' ∧
    2 ≤ size s' ≤ 8 ∧
    tiles s' ≡ₚ seqZ 0 (size s' * size s') ∧
    ∀ v, 0 ≤ v < size s' * size s' →
      ∃ k, tiles s' !! k = Some v ∧
           ∀ k', tiles s' !! k' = Some v → k' = k.
Proof.
  intros [_ Hg].
  destruct (perform_board_ok (NewGame n) s I I) as (s1 & Hrun & Hok1).
  rewrite Hrun in Hg. simpl in Hg.
  destruct (run_board_ok acts s1 Hok1 Hg) as (s2 & Hrun2 & Hn2 & Hv2).
  exists s2. split.
  { change (for_each (NewGame n :: acts) perform s)
      with ((perform (NewGame n) ;; for_each acts perform) s).
    by rewrite (bind_ret _ _ _ _ _ Hrun). }
  split; [done|]. split; [apply Hv2|].
  intros v Hr. by eapply valid_board_once.
Qed.

(** C3, solvability. Whatever the state and the random draws, a new
    game returns with a board of a size within [2,8] that is reached
    from the solved board by finitely many legal slides, and from which
    the solved board is reached by finitely many legal slides; played
    in Human mode, some finite sequence of clicks solves it. *)
Theorem new_game_solvable s :
  ∃ s', new_game s = Ret tt s' ∧
    2 ≤ size s' ≤ 8 ∧
    reachable (size s') (solved_board (size s')) (tiles s') ∧
    reachable (size s') (tiles s') (solved_board (size s')) ∧
    ∃ ps s'', for_each (SetMode "Human" :: clicks ps) perform s'
                = Ret tt s'' ∧
      is_solved s'' = Ret true s''.
Proof.
  destruct (new_game_returns s) as (t' & b & r' & p & d & Hrun & Hv & Hr).
  eexists. split; [exact Hrun|]. simpl.
  pose proof (clamp_range (size s)) as Hc.
  split; [done|]. split; [done|].
  assert (0 < clamp (size s)) as Hpos by lia.
  destruct (reachable_sym _ _ _ (solved_board_valid _ Hpos) Hr)
    as [_ Hback].
  split; [done|].
  set (s1 := mkPuzzle (clamp (size s)) (mode s) 0 t' b r' (fs_exists s)
               (popen_error s) p d).
  destruct (reachable_by_clicks _ _ _ Hback (with_mode "Human" s1))
    as (ps & s2 & Hrun2 & Ht2 & Hn2 & _); try done.
  exists ps, s2. split.
  - change (for_each (SetMode "Human" :: clicks ps) perform s1)
      with ((perform (SetMode "Human") ;; for_each (clicks ps) perform) s1).
    by rewrite bind_modify.
  - rewrite is_solved_ret, Hn2, Ht2. by rewrite bool_decide_true.
Qed.

Lemma permutation_invariant_witness :
  ∃ s', for_each (NewGame 3 :: sample_actions) perform
          (init_state (λ i, i) (λ _, false) None) = Ret tt s' ∧
    2 ≤ size s' ≤ 8 ∧
    tiles s' ≡ₚ seqZ 0 (size s' * size s') ∧
    ∀ v, 0 ≤ v < size s' * size s' →
      ∃ k, tiles s' !! k = Some v ∧
           ∀ k', tiles s' !! k' = Some v → k' = k.
Proof.
  apply (permutation_invariant 3 sample_actions).
  vm_compute. repeat split; first [reflexivity | discriminate].
Defined.

(** C4 as claimed fails: a click outside the grid is not always a silent
    no-op. On a 3x3 board with the blank at row 0, column 2, the click
    [(0, 3)] is outside the grid, yet it moves the tile of row 1,
    column 0 into the blank and counts a move; the click [(3, 0)] is
    outside the grid and raises [IndexError]. *)
Lemma click_outside_grid_counterexample :
  ¬ in_grid 3 0 3 ∧ ¬ in_grid 3 3 0 ∧
  tiles (final (on_tile_click 0 3 (puzzle3 blank_at_row_end 0)))
    = [1; 2; 3; 0; 4; 5; 6; 7; 8] ∧
  move_count (final (on_tile_click 0 3 (puzzle3 blank_at_row_end 0))) = 1 ∧
  returns (on_tile_click 0 3 (puzzle3 blank_at_row_end 0)) = true ∧
  on_tile_click 3 0 (puzzle3 blank_at_row_end 0)
    = Raise IndexError (puzzle3 blank_at_row_end 0).
Proof.
  split; [unfold in_grid; lia|]. split; [unfold in_grid; lia|].
  by vm_compute.
Qed.

(** C4, amended. A click is not checked against the grid. On a valid
    board in Human mode, for a coordinate outside the grid: when the
    subscript [row * N + col] is outside [-N*N, N*N) the call raises
    [IndexError] and the state is as before; otherwise the subscript
    denotes the flat position [(row * N + col) mod (N*N)] and the call
    returns: the state is as before unless that position holds a tile
    and [|br - row| + |bc - col| = 1], in which case that tile and the
    blank are swapped and the move is counted. *)
Theorem click_outside_grid s row col bi :
  mode s = "Human" →
  valid_board (size s) (tiles s) →
  ¬ in_grid (size s) row col →
  tiles s !! bi = Some 0 →
  let n := size s in
  let i := row * n + col in
  let k := Z.to_nat (i `mod` (n * n)) in
  if bool_decide (- (n * n) ≤ i < n * n) then
    ∃ v, tiles s !! k = Some v ∧
      if bool_decide (v ≠ 0 ∧ manhattan (cell_of n bi) (row, col) = 1) then
        ∃ s', on_tile_click row col s = Ret tt s' ∧
          tiles s' = swapped bi k v (tiles s) ∧
          move_count s' = move_count s + 1 ∧
          size s' = size s
      else on_tile_click row col s = Ret tt s
  else on_tile_click row col s = Raise IndexError s.
Proof.
  intros Hm Hv _ Hb n i k.
  pose proof (valid_board_length _ _ Hv) as Hlen. fold n in Hlen.
  case_bool_decide as Hi.
  - assert (py_subscript (length (tiles s)) i = Some k) as Hsub.
    { unfold k. rewrite <- Hlen. apply py_subscript_mod. lia. }
    apply py_subscript_lt in Hsub as Hk.
    destruct (lookup_lt_is_Some_2 _ _ Hk) as [v Hc].
    exists v. split; [done|].
    case_bool_decide as Hcase.
    + destruct Hcase as [Hv0 Hd].
      destruct (on_tile_click_accepted s row col bi k v Hm Hv Hsub Hb Hc
                  Hv0 Hd) as [b Hrun].
      eexists. split; [exact Hrun|]. done.
    + by eapply on_tile_click_rejected.
  - unfold on_tile_click. rewrite bind_gets, Hm.
    rewrite bool_decide_false by (by intros []).
    rewrite bind_gets. apply bind_raise, tiles_getitem_outside.
    fold n i. lia.
Qed.

Lemma click_outside_grid_witness :
  ∃ v, blank_at_row_end !! 3%nat = Some v ∧
    if bool_decide (v ≠ 0 ∧ manhattan (cell_of 3 2) (0, 3) = 1) then
      ∃ s', on_tile_click 0 3 (puzzle3 blank_at_row_end 0) = Ret tt s' ∧
        tiles s' = swapped 2 3 v blank_at_row_end ∧
        move_count s' = 0 + 1 ∧
        size s' = 3
    else on_tile_click 0 3 (puzzle3 blank_at_row_end 0)
         = Ret tt (puzzle3 blank_at_row_end 0).
Proof.
  apply (click_outside_grid (puzzle3 blank_at_row_end 0) 0 3 2).
  - reflexivity.
  - exact blank_at_row_end_valid.
  - unfold in_grid. simpl. lia.
  - reflexivity.
Defined.

(** C5, the scenario. On the 3x3 board [1,2,3,4,5,6,7,0,8] in Human
    mode, whatever the move count [k] and the rest of the state, the
    click [(2, 2)] returns with the tiles [1,2,3,4,5,6,7,8,0] and the
    move count [k + 1]; [is_solved] is true in that state, and the
    congratulation carrying the new count has been shown. *)
Theorem scenario_moved_and_solved k b r fs pe p d :
  ∃ b',
    let s' := mkPuzzle 3 "Human" (k + 1) [1; 2; 3; 4; 5; 6; 7; 8; 0] b' r
                fs pe p
                (d ++ [showinfo "Congratulations!"
                         ("You solved the puzzle in " +:+ str (k + 1)
                          +:+ " moves!")]) in
    on_tile_click 2 2
      (mkPuzzle 3 "Human" k [1; 2; 3; 4; 5; 6; 7; 0; 8] b r fs pe p d)
    = Ret tt s' ∧
    is_solved s' = Ret true s'.
Proof.
  set (s := mkPuzzle 3 "Human" k [1; 2; 3; 4; 5; 6; 7; 0; 8] b r fs pe p d).
  destruct (on_tile_click_accepted s 2 2 7 8 8) as [b' Hrun];
    try reflexivity.
  - exact almost_solved_valid.
  - discriminate.
  - exists b'. split; [exact Hrun|reflexivity].
Qed.

(** C6, move counting. On a valid board a click on a cell of the grid
    returns with the move count increased by exactly 1 when the tiles
    have changed (an accepted move) and by 0 when they have not; a new
    game returns with the move count 0; and the shuffle, the drawing,
    the bot launch and the queries leave the move count as it was,
    however they end. *)
Theorem move_counting s row col moves r c :
  valid_board (size s) (tiles s) →
  in_grid (size s) row col →
  (∃ s', on_tile_click row col s = Ret tt s' ∧
     move_count s' =
       move_count s + (if bool_decide (tiles s' = tiles s) then 0 else 1)) ∧
  (∃ s', new_game s = Ret tt s' ∧ move_count s' = 0) ∧
  move_count (final (shuffle_board moves s)) = move_count s ∧
  move_count (final (draw_board s)) = move_count s ∧
  move_count (final (call_bot_script s)) = move_count s ∧
  move_count (final (get_blank_pos s)) = move_count s ∧
  move_count (final (get_neighbors r c s)) = move_count s ∧
  move_count (final (is_solved s)) = move_count s.
Proof.
  intros Hv Hg. split; [|split].
  - destruct (on_tile_click_in_grid s row col Hv Hg)
      as (s' & Hrun & _ & [->|[Hs Hk]]).
    + exists s. split; [done|]. rewrite bool_decide_true by done. lia.
    + exists s'. split; [done|].
      by rewrite bool_decide_false by (by eapply slide_changes).
  - destruct (new_game_returns s) as (t' & b & r' & p & d & Hrun & _).
    eexists. split; [exact Hrun|done].
  - split; [by apply (preserves_shuffle_board move_count)|].
    split; [by apply (preserves_draw_board move_count)|].
    split; [by apply (preserves_call_bot_script move_count)|].
    split; [by apply (preserves_get_blank_pos move_count)|].
    split; [by apply (preserves_get_neighbors move_count)|].
    by apply (preserves_is_solved move_count).
Qed.

Lemma move_counting_witness :
  (∃ s', on_tile_click 2 2 (puzzle3 almost_solved 5) = Ret tt s' ∧
     move_count s' =
       5 + (if bool_decide (tiles s' = almost_solved) then 0 else 1)) ∧
  (∃ s', new_game (puzzle3 almost_solved 5) = Ret tt s' ∧
     move_count s' = 0) ∧
  move_count (final (shuffle_board 7 (puzzle3 almost_solved 5))) = 5 ∧
  move_count (final (draw_board (puzzle3 almost_solved 5))) = 5 ∧
  move_count (final (call_bot_script (puzzle3 almost_solved 5))) = 5 ∧
  move_count (final (get_blank_pos (puzzle3 almost_solved 5))) = 5 ∧
  move_count (final (get_neighbors 2 1 (puzzle3 almost_solved 5))) = 5 ∧
  move_count (final (is_solved (puzzle3 almost_solved 5))) = 5.
Proof.
  apply (move_counting (puzzle3 almost_solved 5) 2 2 7 2 1).
  - exact almost_solved_valid.
  - unfold in_grid. simpl. lia.
Defined.

(** C7, size clamping. Whatever integer the size variable holds, a new
    game returns (nothing is rejected, nothing is raised) and is played
    at that integer clamped into [2,8]: 2 below 2, 8 above 8, the
    integer itself otherwise; the board has that many rows and
    columns. *)
Theorem new_game_clamps s :
  ∃ s', new_game s = Ret tt s' ∧
    size s' = (if bool_decide (size s < 2) then 2
               else if bool_decide (size s > 8) then 8 else size s) ∧
    2 ≤ size s' ≤ 8 ∧
    Z.of_nat (length (tiles s')) = size s' * size s'.
Proof.
  destruct (new_game_returns s) as (t' & b & r' & p & d & Hrun & Hv & _).
  eexists. split; [exact Hrun|]. simpl.
  split; [done|]. split; [apply clamp_range|].
  by apply valid_board_length.
Qed.

(** C8, the frame of the shuffle. For every state and every number of
    steps, however the shuffle ends, the size and the move count are
    what they were before the call, and so are the mode, the widgets,
    the processes and the dialogs: only the tiles (and the random
    source) can differ. *)
Theorem shuffle_board_frame moves s :
  size (final (shuffle_board moves s)) = size s ∧
  move_count (final (shuffle_board moves s)) = move_count s ∧
  mode (final (shuffle_board moves s)) = mode s ∧
  buttons (final (shuffle_board moves s)) = buttons s ∧
  spawned (final (shuffle_board moves s)) = spawned s ∧
  dialogs (final (shuffle_board moves s)) = dialogs s.
Proof.
  split; [by apply (preserves_shuffle_board size)|].
  split; [by apply (preserves_shuffle_board move_count)|].
  split; [by apply (preserves_shuffle_board mode)|].
  split; [by apply (preserves_shuffle_board buttons)|].
  split; [by apply (preserves_shuffle_board spawned)|].
  by apply (preserves_shuffle_board dialogs).
Qed.

(** C9, the mode gate. When the mode is not "Human", a click on any
    coordinate returns at once with the state as it was, and it does so
    whatever the tiles and the move count are: they are not consulted. *)
Theorem bot_mode_click_noop s row col :
  mode s ≠ "Human" →
  on_tile_click row col s = Ret tt s ∧
  ∀ t k, on_tile_click row col (with_move_count k (with_tiles t s))
         = Ret tt (with_move_count k (with_tiles t s)).
Proof.
  intros Hm. split; [by apply on_tile_click_bot|].
  intros t k. by apply on_tile_click_bot.
Qed.

Lemma bot_mode_click_noop_witness :
  on_tile_click 40 (-7) (with_mode "Bot" (puzzle3 almost_solved 0))
    = Ret tt (with_mode "Bot" (puzzle3 almost_solved 0)) ∧
  ∀ t k, on_tile_click 40 (-7)
           (with_move_count k
              (with_tiles t (with_mode "Bot" (puzzle3 almost_solved 0))))
         = Ret tt (with_move_count k
              (with_tiles t (with_mode "Bot" (puzzle3 almost_solved 0)))).
Proof.
  apply (bot_mode_click_noop (with_mode "Bot" (puzzle3 almost_solved 0))).
  simpl. discriminate.
Defined.

(** C10, bot launch failure. When the bot script does not exist, or
    when it exists and the launch raises, [call_bot_script] returns
    normally after showing one error dialog titled "Bot Error" whose
    text names the cause; no process is recorded and the rest of the
    state, in particular tiles, size and move count, is as before. *)
Theorem bot_launch_failure s :
  (fs_exists s (os_path_join script_dir "Bot.py") = false →
   call_bot_script s =
     Ret tt (with_dialogs
               (dialogs s ++ [showerror "Bot Error" bot_not_found]) s)) ∧
  (∀ msg, fs_exists s (os_path_join script_dir "Bot.py") = true →
     popen_error s = Some msg →
     call_bot_script s =
       Ret tt (with_dialogs
                 (dialogs s ++ [showerror "Bot Error" (bot_start_failed msg)])
                 s)) ∧
  board_state (final (call_bot_script s)) = board_state s.
Proof.
  split; [|split].
  - intros Hfs. unfold call_bot_script. rewrite bind_gets, Hfs. reflexivity.
  - intros msg Hfs Hpe. unfold call_bot_script. rewrite bind_gets, Hfs.
    simpl. unfold try_except, Popen. rewrite Hpe. reflexivity.
  - by apply (preserves_call_bot_script board_state).
Qed.

Lemma bot_launch_failure_witness :
  call_bot_script (with_mode "Bot" (puzzle3 almost_solved 0)) =
    Ret tt (with_dialogs [showerror "Bot Error" bot_not_found]
              (with_mode "Bot" (puzzle3 almost_solved 0))) ∧
  call_bot_script
    (mkPuzzle 3 "Bot" 0 almost_solved ∅ (λ i, i) (λ _, true)
       (Some "Permission denied") [] []) =
    Ret tt (mkPuzzle 3 "Bot" 0 almost_solved ∅ (λ i, i) (λ _, true)
              (Some "Permission denied") []
              [showerror "Bot Error" (bot_start_failed "Permission denied")]).
Proof.
  split.
  - apply (proj1 (bot_launch_failure
                    (with_mode "Bot" (puzzle3 almost_solved 0)))).
    reflexivity.
  - apply (proj1 (proj2 (bot_launch_failure
             (mkPuzzle 3 "Bot" 0 almost_solved ∅ (λ i, i) (λ _, true)
                (Some "Permission denied") [] [])))
             "Permission denied"); reflexivity.
Defined.

(** * Further properties of the board logic *)

(** X1. For a cell of the grid, [get_neighbors] lists exactly the cells
    of the grid at Manhattan distance 1, each once; on a grid of at
    least two rows there are between two and four of them. *)
Theorem get_neighbors_exact s r c :
  in_grid (size s) r c →
  ∃ nb, get_neighbors r c s = Ret nb s ∧
    NoDup nb ∧
    (∀ p, p ∈ nb ↔ in_grid (size s) p.1 p.2 ∧ manhattan (r, c) p = 1) ∧
    (2 ≤ size s → (2 ≤ length nb ≤ 4)%nat).
Proof.
  intros [Hr Hc]. unfold get_neighbors. rewrite bind_gets.
  eexists. split; [reflexivity|].
  repeat case_bool_decide; simpl; (split; [|split]).
  all: try (intros; lia).
  all: try (repeat (apply NoDup_cons; split); try apply NoDup_nil_2;
    rewrite ?elem_of_cons, ?elem_of_nil; intros Hin;
    repeat (destruct Hin as [Hin|Hin]); try done; injection Hin; lia).
  all: intros [a b]; unfold in_grid, manhattan; simpl;
    rewrite ?elem_of_cons, ?elem_of_nil; split.
  all: try (intros Hin; repeat (destruct Hin as [Hin|Hin]); try done;
            injection Hin as -> ->; lia).
  all: intros [[Ha Hb] Hd];
    assert ((a = r - 1 ∧ b = c) ∨ (a = r + 1 ∧ b = c) ∨
            (a = r ∧ b = c - 1) ∨ (a = r ∧ b = c + 1)) as Hcases by lia;
    destruct Hcases as [[Ea Eb]|[[Ea Eb]|[[Ea Eb]|[Ea Eb]]]]; subst a b;
    first [ lia | tauto ].
Qed.

Lemma get_neighbors_exact_witness :
  ∃ nb, get_neighbors 0 2 (puzzle3 almost_solved 0)
          = Ret nb (puzzle3 almost_solved 0) ∧
    NoDup nb ∧
    (∀ p, p ∈ nb ↔ in_grid 3 p.1 p.2 ∧ manhattan (0, 2) p = 1) ∧
    (2 ≤ 3 → (2 ≤ length nb ≤ 4)%nat).
Proof.
  apply (get_neighbors_exact (puzzle3 almost_solved 0) 0 2).
  unfold in_grid. simpl. lia.
Defined.

(** X2. On a valid board [get_blank_pos] returns the one cell of the
    grid that holds the blank: the cell is in the grid, the tile at its
    flat position is 0, and no other cell of the grid holds 0. *)
Theorem get_blank_pos_locates s :
  valid_board (size s) (tiles s) →
  ∃ br bc, get_blank_pos s = Ret (br, bc) s ∧
    in_grid (size s) br bc ∧
    tiles s !! Z.to_nat (br * size s + bc) = Some 0 ∧
    ∀ r c, in_grid (size s) r c →
      tiles s !! Z.to_nat (r * size s + c) = Some 0 → (r, c) = (br, bc).
Proof.
  intros Hv.
  destruct (valid_board_blank _ _ Hv) as [bi Hk].
  apply list_find_Some in Hk as Hb. destruct Hb as (Hb & _).
  assert (0 < size s) as Hn by apply Hv.
  assert (Z.of_nat bi < size s * size s) as Hbi.
  { apply lookup_lt_Some in Hb. rewrite <- (valid_board_length _ _ Hv). lia. }
  pose proof (cell_of_in_grid _ _ Hn Hbi) as Hbg.
  pose proof (flat_of_cell (size s) bi Hn) as Hflat.
  pose proof (get_blank_pos_valid s bi Hv Hb) as Hrun.
  destruct (cell_of (size s) bi) as [br bc]. simpl in *.
  exists br, bc. split; [done|]. split; [done|].
  split; [by rewrite Hflat|].
  intros r c Hg H0.
  pose proof (valid_board_blank_unique _ _ _ _ Hv H0 Hb) as Heq.
  rewrite <- Hflat in Heq.
  pose proof (cell_of_flat _ _ _ Hg) as H1.
  pose proof (cell_of_flat _ _ _ Hbg) as H2.
  rewrite Heq in H1. congruence.
Qed.

Lemma get_blank_pos_locates_witness :
  ∃ br bc, get_blank_pos (puzzle3 almost_solved 0)
             = Ret (br, bc) (puzzle3 almost_solved 0) ∧
    in_grid 3 br bc ∧
    almost_solved !! Z.to_nat (br * 3 + bc) = Some 0 ∧
    ∀ r c, in_grid 3 r c →
      almost_solved !! Z.to_nat (r * 3 + c) = Some 0 → (r, c) = (br, bc).
Proof.
  apply (get_blank_pos_locates (puzzle3 almost_solved 0)).
  exact almost_solved_valid.
Defined.

(** X3. [get_blank_pos] does not guard its search or its division: on
    tiles without a 0 it raises [ValueError], and on tiles with a 0
    while the size variable holds 0 it raises [ZeroDivisionError]; the
    state is untouched in both cases. A shuffle of at least one step on
    tiles without a 0 raises [ValueError] at its first step. *)
Theorem get_blank_pos_errors s moves :
  (0 ∉ tiles s → get_blank_pos s = Raise ValueError s) ∧
  (0 ∈ tiles s → size s = 0 → get_blank_pos s = Raise ZeroDivisionError s) ∧
  (0 ∉ tiles s → 0 < moves → shuffle_board moves s = Raise ValueError s).
Proof.
  assert (0 ∉ tiles s → get_blank_pos s = Raise ValueError s) as Hnone.
  { intros Hno. unfold get_blank_pos. rewrite bind_gets.
    apply bind_raise. unfold tiles_index.
    destruct (list_find _ _) as [[k x]|] eqn:Hf; [|done].
    apply list_find_Some in Hf as (Hk & -> & _).
    exfalso. apply Hno. by eapply list_elem_of_lookup_2. }
  split; [done|]. split.
  - intros Hin Hn. unfold get_blank_pos. rewrite bind_gets.
    destruct (list_find_elem_of (λ x, x = 0) (tiles s) 0 Hin eq_refl)
      as [[k x] Hk].
    rewrite (bind_ret _ _ _ (Z.of_nat k) s)
      by (unfold tiles_index; by rewrite Hk).
    unfold py_divmod. by rewrite bool_decide_true.
  - intros Hno Hm. unfold shuffle_board. rewrite bind_gets.
    unfold py_range. rewrite seqZ_cons by lia. simpl.
    apply bind_raise. unfold shuffle_step. apply bind_raise. by apply Hnone.
Qed.

Lemma get_blank_pos_errors_witness :
  get_blank_pos (puzzle3 [1; 2; 3] 0) = Raise ValueError (puzzle3 [1; 2; 3] 0) ∧
  get_blank_pos (with_size 0 (puzzle3 almost_solved 0))
    = Raise ZeroDivisionError (with_size 0 (puzzle3 almost_solved 0)) ∧
  shuffle_board 5 (puzzle3 [1; 2; 3] 0)
    = Raise ValueError (puzzle3 [1; 2; 3] 0).
Proof.
  split; [|split].
  - apply (proj1 (get_blank_pos_errors (puzzle3 [1; 2; 3] 0) 5)).
    by apply (bool_decide_unpack _).
  - apply (proj1 (proj2 (get_blank_pos_errors
                           (with_size 0 (puzzle3 almost_solved 0)) 5))).
    + by apply (bool_decide_unpack _).
    + reflexivity.
  - apply (proj2 (proj2 (get_blank_pos_errors (puzzle3 [1; 2; 3] 0) 5))).
    + by apply (bool_decide_unpack _).
    + lia.
Defined.

(** ** Clicks, once more *)

(** The state after an accepted click holds the blank at the clicked
    position and the tile at the former blank. *)
Lemma swapped_lookup_blank bi k v t :
  (k < length t)%nat → swapped bi k v t !! k = Some 0.
Proof.
  intros Hk. unfold swapped. apply list_lookup_insert_eq.
  by rewrite length_insert.
Qed.

Lemma swapped_lookup_tile bi k v t :
  bi ≠ k → (bi < length t)%nat → swapped bi k v t !! bi = Some v.
Proof.
  intros Hne Hb. unfold swapped. rewrite list_lookup_insert_ne by done.
  by apply list_lookup_insert_eq.
Qed.

Lemma swapped_lookup_other bi k v t j :
  j ≠ k → j ≠ bi → swapped bi k v t !! j = t !! j.
Proof.
  intros Hk Hb. unfold swapped.
  by rewrite !list_lookup_insert_ne by done.
Qed.

(** X4. Clicking the same cell of the grid twice does what clicking it
    once does: on a valid board, in either mode, the second click
    returns the state of the first unchanged (after an accepted move the
    cell holds the blank). *)
Theorem click_twice s row col :
  valid_board (size s) (tiles s) → in_grid (size s) row col →
  ∃ s', on_tile_click row col s = Ret tt s' ∧
        on_tile_click row col s' = Ret tt s'.
Proof.
  intros Hv Hg.
  destruct (decide (mode s = "Human")) as [Hm|Hm].
  2: { exists s. by rewrite on_tile_click_bot. }
  pose proof (in_grid_subscript _ _ _ Hv Hg) as Hsub.
  pose proof (flat_index_bounds _ _ _ Hg) as Hi.
  pose proof (valid_board_length _ _ Hv) as Hlen.
  destruct (valid_board_blank _ _ Hv) as [bi Hk].
  apply list_find_Some in Hk as Hb. destruct Hb as (Hb & _).
  set (k := Z.to_nat (row * size s + col)) in *.
  destruct (valid_board_lookup _ _ k Hv) as [v Hc]; [lia|].
  destruct (decide (v ≠ 0 ∧ manhattan (cell_of (size s) bi) (row, col) = 1))
    as [[Hv0 Hd]|Hno].
  - destruct (on_tile_click_accepted s row col bi k v Hm Hv Hsub Hb Hc Hv0 Hd)
      as [b Hrun].
    eexists. split; [exact Hrun|].
    apply (on_tile_click_rejected _ row col k k 0); simpl.
    + done.
    + by apply swapped_valid.
    + by rewrite swapped_length.
    + apply swapped_lookup_blank. lia.
    + apply swapped_lookup_blank. lia.
    + by intros [? _].
  - exists s. split; by apply (on_tile_click_rejected s row col bi k v).
Qed.

Lemma click_twice_witness :
  ∃ s', on_tile_click 2 2 (puzzle3 almost_solved 0) = Ret tt s' ∧
        on_tile_click 2 2 s' = Ret tt s'.
Proof.
  apply (click_twice (puzzle3 almost_solved 0) 2 2).
  - exact almost_solved_valid.
  - unfold in_grid. simpl. lia.
Defined.

(** X5. An accepted move is undone by clicking the cell the blank came
    from: on a valid board in Human mode, after a click on a tile next
    to the blank, a click on the blank's former cell returns with the
    tiles as they were at the start; the two moves are both counted. *)
Theorem click_undo s row col bi :
  mode s = "Human" →
  valid_board (size s) (tiles s) →
  in_grid (size s) row col →
  tiles s !! bi = Some 0 →
  tiles s !! Z.to_nat (row * size s + col) ≠ Some 0 →
  manhattan (cell_of (size s) bi) (row, col) = 1 →
  ∃ s1 s2,
    on_tile_click row col s = Ret tt s1 ∧
    on_tile_click (cell_of (size s) bi).1 (cell_of (size s) bi).2 s1
      = Ret tt s2 ∧
    tiles s1 ≠ tiles s ∧
    tiles s2 = tiles s ∧
    move_count s2 = move_count s + 2.
Proof.
  intros Hm Hv Hg Hb Hnb Hd.
  pose proof (in_grid_subscript _ _ _ Hv Hg) as Hsub.
  pose proof (flat_index_bounds _ _ _ Hg) as Hi.
  pose proof (valid_board_length _ _ Hv) as Hlen.
  assert (0 < size s) as Hn by apply Hv.
  assert (Z.of_nat bi < size s * size s) as Hbi
    by (apply lookup_lt_Some in Hb; lia).
  pose proof (cell_of_in_grid _ _ Hn Hbi) as Hbg.
  pose proof (flat_of_cell (size s) bi Hn) as Hflat.
  pose proof (cell_of_flat _ _ _ Hg) as Hcell.
  set (k := Z.to_nat (row * size s + col)) in *.
  destruct (valid_board_lookup _ _ k Hv) as [v Hc]; [lia|].
  assert (v ≠ 0) as Hv0 by congruence.
  assert (bi ≠ k) as Hne by congruence.
  destruct (on_tile_click_accepted s row col bi k v Hm Hv Hsub Hb Hc Hv0 Hd)
    as [b Hrun].
  set (t1 := swapped bi k v (tiles s)) in *.
  assert (valid_board (size s) t1) as Hv1 by (by apply swapped_valid).
  eexists. 
  destruct (on_tile_click_accepted
    (with_dialogs (dialogs_after_move s t1 (move_count s + 1))
       (with_buttons b (with_move_count (move_count s + 1)
          (with_tiles t1 s))))
    (cell_of (size s) bi).1 (cell_of (size s) bi).2 k bi v) as [b2 Hrun2];
    simpl; try done.
  - unfold t1. rewrite swapped_length. rewrite <- Hflat at 3.
    apply (in_grid_subscript s); done.
  - apply swapped_lookup_blank. lia.
  - apply swapped_lookup_tile; [done|lia].
  - rewrite Hcell. unfold manhattan in *. simpl in *. lia.
  - eexists. split; [exact Hrun|]. split; [exact Hrun2|]. simpl.
    split; [by apply swapped_changes|].
    split; [by apply swapped_back|lia].
Qed.

Lemma click_undo_witness :
  ∃ s1 s2,
    on_tile_click 2 2 (puzzle3 almost_solved 0) = Ret tt s1 ∧
    on_tile_click 2 1 s1 = Ret tt s2 ∧
    tiles s1 ≠ almost_solved ∧
    tiles s2 = almost_solved ∧
    move_count s2 = 0 + 2.
Proof.
  apply (click_undo (puzzle3 almost_solved 0) 2 2 7).
  - reflexivity.
  - exact almost_solved_valid.
  - unfold in_grid. simpl. lia.
  - reflexivity.
  - simpl. discriminate.
  - reflexivity.
Defined.

(** X6. An accepted move changes exactly two cells: on a valid board in
    Human mode, after a click on a tile next to the blank, the clicked
    position holds the blank, the blank's former position holds the
    clicked tile, and every other position holds what it held. *)
Theorem accepted_click_two_cells s row col bi v :
  mode s = "Human" →
  valid_board (size s) (tiles s) →
  in_grid (size s) row col →
  tiles s !! bi = Some 0 →
  tiles s !! Z.to_nat (row * size s + col) = Some v →
  v ≠ 0 →
  manhattan (cell_of (size s) bi) (row, col) = 1 →
  ∃ s', on_tile_click row col s = Ret tt s' ∧
    tiles s' !! Z.to_nat (row * size s + col) = Some 0 ∧
    tiles s' !! bi = Some v ∧
    ∀ j, j ≠ Z.to_nat (row * size s + col) → j ≠ bi →
         tiles s' !! j = tiles s !! j.
Proof.
  intros Hm Hv Hg Hb Hc Hv0 Hd.
  pose proof (in_grid_subscript _ _ _ Hv Hg) as Hsub.
  apply lookup_lt_Some in Hb as Hbl. apply lookup_lt_Some in Hc as Hcl.
  assert (bi ≠ Z.to_nat (row * size s + col)) as Hne by congruence.
  destruct (on_tile_click_accepted s row col bi _ v Hm Hv Hsub Hb Hc Hv0 Hd)
    as [b Hrun].
  eexists. split; [exact Hrun|]. simpl.
  split; [by apply swapped_lookup_blank|].
  split; [by apply swapped_lookup_tile|].
  intros j Hj1 Hj2. by apply swapped_lookup_other.
Qed.

Lemma accepted_click_two_cells_witness :
  ∃ s', on_tile_click 2 2 (puzzle3 almost_solved 0) = Ret tt s' ∧
    tiles s' !! 8%nat = Some 0 ∧
    tiles s' !! 7%nat = Some 8 ∧
    ∀ j, j ≠ 8%nat → j ≠ 7%nat → tiles s' !! j = almost_solved !! j.
Proof.
  apply (accepted_click_two_cells (puzzle3 almost_solved 0) 2 2 7 8).
  - reflexivity.
  - exact almost_solved_valid.
  - unfold in_grid. simpl. lia.
  - reflexivity.
  - reflexivity.
  - discriminate.
  - reflexivity.
Defined.

(** X7. The congratulation is shown by the move that solves the puzzle
    and by no other click: on a valid board, a click on a cell of the
    grid appends the dialog carrying the new move count exactly when it
    changed the tiles and the new tiles are the solved board; otherwise
    (rejected clicks, even on a solved board, and moves that do not
    solve) the dialogs are as before. *)
Theorem congratulation_on_solving_move s row col :
  valid_board (size s) (tiles s) → in_grid (size s) row col →
  ∃ s', on_tile_click row col s = Ret tt s' ∧
    dialogs s' =
      if bool_decide (tiles s' ≠ tiles s ∧ tiles s' = solved_board (size s))
      then dialogs s ++ [congratulation (move_count s')]
      else dialogs s.
Proof.
  intros Hv Hg.
  destruct (decide (mode s = "Human")) as [Hm|Hm].
  2: { exists s. rewrite on_tile_click_bot by done. split; [done|].
       rewrite bool_decide_false; [done|]. by intros [? _]. }
  pose proof (in_grid_subscript _ _ _ Hv Hg) as Hsub.
  pose proof (flat_index_bounds _ _ _ Hg) as Hi.
  destruct (valid_board_blank _ _ Hv) as [bi Hk].
  apply list_find_Some in Hk as Hb. destruct Hb as (Hb & _).
  set (k := Z.to_nat (row * size s + col)) in *.
  destruct (valid_board_lookup _ _ k Hv) as [v Hc]; [lia|].
  destruct (decide (v ≠ 0 ∧ manhattan (cell_of (size s) bi) (row, col) = 1))
    as [[Hv0 Hd]|Hno].
  - destruct (on_tile_click_accepted s row col bi k v Hm Hv Hsub Hb Hc Hv0 Hd)
      as [b Hrun].
    eexists. split; [exact Hrun|]. simpl. unfold dialogs_after_move.
    pose proof (swapped_changes (tiles s) bi k v Hc Hv0) as Hch.
    case_bool_decide as Hs.
    + by rewrite bool_decide_true.
    + rewrite bool_decide_false; [done|]. by intros [_ ?].
  - exists s. split; [by apply (on_tile_click_rejected s row col bi k v)|].
    rewrite bool_decide_false; [done|]. by intros [? _].
Qed.

Lemma congratulation_on_solving_move_witness :
  ∃ s', on_tile_click 2 2 (puzzle3 almost_solved 0) = Ret tt s' ∧
    dialogs s' =
      if bool_decide (tiles s' ≠ almost_solved ∧ tiles s' = solved_board 3)
      then [] ++ [congratulation (move_count s')]
      else [].
Proof.
  apply (congratulation_on_solving_move (puzzle3 almost_solved 0) 2 2).
  - exact almost_solved_valid.
  - unfold in_grid. simpl. lia.
Defined.

(** ** Clicks on arbitrary states *)

Lemma preserves_on_tile_click_tail {X} (f : SlidingPuzzle → X) :
  ignores_buttons f → ignores_dialogs f →
  preserves f
    (draw_board ;;
     solved ← is_solved;
     if (solved : bool) then
       c ← gets move_count;
       messagebox (showinfo "Congratulations!"
         ("You solved the puzzle in " +:+ str c +:+ " moves!"))
     else mret tt).
Proof.
  intros Hb Hd.
  apply preserves_bind; [by apply preserves_draw_board|]. intros _.
  apply preserves_bind; [by apply preserves_is_solved|]. intros solved.
  frame.
Qed.

Lemma preserves_on_tile_click {X} (f : SlidingPuzzle → X) row col :
  ignores_tiles f → ignores_move_count f →
  ignores_buttons f → ignores_dialogs f →
  preserves f (on_tile_click row col).
Proof.
  intros Ht Hk Hb Hd. unfold on_tile_click.
  apply preserves_bind; [apply preserves_gets|]. intros m.
  case_bool_decide; [apply preserves_ret|].
  apply preserves_bind; [apply preserves_gets|]. intros n.
  apply preserves_bind; [apply preserves_getitem|]. intros clicked.
  case_bool_decide; [apply preserves_ret|].
  apply preserves_bind; [apply preserves_index|]. intros blank_index.
  apply preserves_bind; [apply preserves_divmod|]. intros [br bc].
  case_bool_decide; [|apply preserves_ret].
  apply preserves_bind; [apply preserves_getitem|]. intros x.
  apply preserves_bind; [apply preserves_getitem|]. intros y.
  apply preserves_bind; [by apply preserves_setitem|]. intros _.
  apply preserves_bind; [by apply preserves_setitem|]. intros _.
  apply preserves_bind; [apply preserves_gets|]. intros c.
  apply preserves_bind; [apply preserves_modify; intros ?; apply Hk|].
  intros _. by apply preserves_on_tile_click_tail.
Qed.

Lemma tiles_getitem_cases i s :
  (∃ k v, py_subscript (length (tiles s)) i = Some k ∧
          tiles s !! k = Some v ∧ tiles_getitem i s = Ret v s) ∨
  tiles_getitem i s = Raise IndexError s.
Proof.
  unfold tiles_getitem.
  destruct (py_subscript (length (tiles s)) i) as [k|] eqn:Hsub; simpl;
    [|by right].
  destruct (tiles s !! k) as [v|] eqn:Hc; [|by right].
  left. by exists k, v.
Qed.

Lemma tiles_index_cases v s :
  (∃ k, tiles s !! k = Some v ∧ tiles_index v s = Ret (Z.of_nat k) s) ∨
  tiles_index v s = Raise ValueError s.
Proof.
  unfold tiles_index.
  destruct (list_find (λ x, x = v) (tiles s)) as [[k z]|] eqn:Hf;
    [|by right].
  apply list_find_Some in Hf as (Hk & -> & _). left. by exists k.
Qed.

(** What a click does to the board of any state: nothing, or one swap
    of a 0 with a non-zero tile and one more move counted. *)
Lemma on_tile_click_board s row col :
  board_state (final (on_tile_click row col s)) = board_state s ∨
  ∃ bi k v, tiles s !! bi = Some 0 ∧ tiles s !! k = Some v ∧ v ≠ 0 ∧
    board_state (final (on_tile_click row col s))
    = (size s, move_count s + 1, swapped bi k v (tiles s)).
Proof.
  unfold on_tile_click. rewrite bind_gets.
  case_bool_decide; [by left|]. rewrite bind_gets.
  destruct (tiles_getitem_cases (row * size s + col) s)
    as [(k & v & Hsub & Hc & Hget)|Hget].
  2: { left. by rewrite (bind_raise _ _ _ _ _ Hget). }
  rewrite (bind_ret _ _ _ _ _ Hget).
  case_bool_decide as Hv0; [by left|].
  destruct (tiles_index_cases 0 s) as [(bi & Hb & Hidx)|Hidx].
  2: { left. by rewrite (bind_raise _ _ _ _ _ Hidx). }
  rewrite (bind_ret _ _ _ _ _ Hidx).
  unfold py_divmod. case_bool_decide as Hn; [by left|].
  rewrite bind_mret. case_bool_decide as Hd; [|by left].
  right. exists bi, k, v. split; [done|]. split; [done|]. split; [done|].
  apply lookup_lt_Some in Hb as Hbl.
  rewrite (bind_ret _ _ _ _ _ Hget).
  rewrite (bind_ret _ _ s 0 s)
    by (apply tiles_getitem_front; [lia|by rewrite Nat2Z.id]).
  erewrite bind_ret by (apply tiles_setitem_front; lia).
  erewrite bind_ret
    by (unfold tiles_setitem; simpl; rewrite length_insert, Hsub;
        reflexivity).
  rewrite bind_gets, bind_modify. simpl. rewrite Nat2Z.id.
  fold (swapped bi k v (tiles s)).
  by rewrite (preserves_on_tile_click_tail board_state).
Qed.

(** X8. Whatever the state (valid or not), the coordinate and the way
    the call ends, a click never creates or loses a tile: the tiles
    afterwards are a permutation of the tiles before, the move count is
    the same or one more, and the size, the mode, the random source, the
    files and the processes are untouched. *)
Theorem on_tile_click_conserves s row col :
  tiles (final (on_tile_click row col s)) ≡ₚ tiles s ∧
  (move_count (final (on_tile_click row col s)) = move_count s ∨
   move_count (final (on_tile_click row col s)) = move_count s + 1) ∧
  click_frame (final (on_tile_click row col s)) = click_frame s.
Proof.
  split; [|split].
  - destruct (on_tile_click_board s row col)
      as [Heq|(bi & k & v & Hb & Hc & _ & Heq)].
    + by injection Heq as _ _ ->.
    + injection Heq as _ _ ->. by eapply Permutation_insert_swap.
  - destruct (on_tile_click_board s row col)
      as [Heq|(bi & k & v & _ & _ & _ & Heq)].
    + left. by injection Heq.
    + right. by injection Heq.
  - by apply (preserves_on_tile_click click_frame).
Qed.

(** ** The shuffle, step by step *)

(** On a grid of at least two rows a step of the shuffle consumes one
    random draw and performs one legal slide. *)
Lemma shuffle_step_slide s :
  valid_board (size s) (tiles s) → 2 ≤ size s →
  ∃ t', shuffle_step (size s) s
          = Ret tt (with_rand (λ k, rand s (S k)) (with_tiles t' s)) ∧
    slide (size s) (tiles s) t'.
Proof.
  intros Hv Hn2.
  destruct (valid_board_blank _ _ Hv) as [bi Hk].
  apply list_find_Some in Hk as Hb. destruct Hb as (Hb & _).
  pose proof (valid_board_length _ _ Hv) as Hlen.
  assert (0 < size s) as Hn by lia.
  assert (Z.of_nat bi < size s * size s) as Hbi
    by (apply lookup_lt_Some in Hb; lia).
  pose proof (cell_of_in_grid _ _ Hn Hbi) as Hbg.
  pose proof (flat_of_cell (size s) bi Hn) as Hflat.
  pose proof (get_blank_pos_valid s bi Hv Hb) as Hpos.
  destruct (cell_of (size s) bi) as [br bc]. simpl in *.
  unfold shuffle_step. rewrite (bind_ret _ _ _ _ _ Hpos).
  destruct (get_neighbors_adjacent s br bc Hbg) as (nb & Hnb & Hadj & Hne).
  rewrite (bind_ret _ _ _ _ _ Hnb).
  destruct nb as [|p nb']; [by destruct (Hne Hn2)|].
  destruct (random_choice_member (p :: nb') s) as ([nr nc] & Hin & Hch);
    [done|].
  rewrite (bind_ret _ _ _ _ _ Hch).
  rewrite Forall_forall in Hadj. destruct (Hadj _ Hin) as [Hg Hd].
  simpl in Hg. pose proof (flat_index_bounds _ _ _ Hg) as Hti.
  pose proof (flat_index_bounds _ _ _ Hbg) as Hbb.
  destruct (valid_board_lookup (size s) (tiles s)
    (Z.to_nat (nr * size s + nc)) Hv) as [v Hvv]; [lia|].
  set (s1 := with_rand (λ k, rand s (S k)) s).
  rewrite (bind_ret _ _ _ v s1) by (apply tiles_getitem_front; [lia|done]).
  rewrite (bind_ret _ _ _ 0 s1)
    by (apply tiles_getitem_front; [lia|by rewrite Hflat]).
  erewrite bind_ret by (apply tiles_setitem_front; simpl; lia).
  rewrite tiles_setitem_front by (simpl; rewrite length_insert; lia).
  simpl. rewrite Hflat.
  fold (swapped bi (Z.to_nat (nr * size s + nc)) v (tiles s)).
  eexists. split; [reflexivity|].
  rewrite <- Hflat. apply slide_tile; try done.
  - by rewrite Hflat.
  - intros ->. pose proof (adjacent_flat_ne _ _ _ _ _ Hbg Hg Hd) as Hneq.
    apply Hneq. rewrite Hflat.
    by apply (valid_board_blank_unique _ _ _ _ Hv Hb Hvv).
Qed.

(** A legal slide moves the blank to a cell of the other colour. *)
Lemma slide_blank_colour n t t' bi bi' :
  valid_board n t → slide n t t' →
  t !! bi = Some 0 → t' !! bi' = Some 0 →
  cell_colour n bi' = negb (cell_colour n bi).
Proof.
  intros Hv Hs Hb Hb'.
  pose proof (slide_valid _ _ _ Hv Hs) as Hv'.
  destruct Hs as [br bc r c v Hbg Hg Hb0 Ht Hv0 Hd].
  apply lookup_lt_Some in Ht as Htl.
  rewrite (valid_board_blank_unique _ _ _ _ Hv Hb Hb0).
  rewrite (valid_board_blank_unique _ _ _ _ Hv' Hb'
             (swapped_lookup_blank _ _ _ _ Htl)).
  unfold cell_colour. rewrite !cell_of_flat by done. simpl.
  unfold manhattan in Hd. simpl in Hd.
  assert (r + c = Z.succ (br + bc) ∨ br + bc = Z.succ (r + c)) as [->| ->]
    by lia.
  - by rewrite Z.even_succ, Z.negb_even.
  - by rewrite Z.even_succ, Z.negb_odd.
Qed.

(** A run of shuffle steps on a grid of at least two rows: one draw per
    step, a valid board, and the blank on the colour given by the
    parity of the number of steps. *)
Lemma shuffle_steps_trace {A} (xs : list A) s :
  valid_board (size s) (tiles s) → 2 ≤ size s →
  ∃ t', for_each xs (λ _, shuffle_step (size s)) s
          = Ret tt (with_rand (λ k, rand s (length xs + k)%nat)
                      (with_tiles t' s)) ∧
    valid_board (size s) t' ∧
    reachable (size s) (tiles s) t' ∧
    ∀ bi bi', tiles s !! bi = Some 0 → t' !! bi' = Some 0 →
      cell_colour (size s) bi'
      = xorb (Nat.odd (length xs)) (cell_colour (size s) bi).
Proof.
  revert s. induction xs as [|x xs IH]; intros s Hv Hn.
  - exists (tiles s). split; [by destruct s|]. split; [done|].
    split; [apply rtc_refl|].
    intros bi bi' Hb Hb'.
    by rewrite (valid_board_blank_unique _ _ _ _ Hv Hb Hb').
  - destruct (shuffle_step_slide s Hv Hn) as (t1 & Hstep & Hs1).
    pose proof (slide_valid _ _ _ Hv Hs1) as Hv1.
    destruct (IH (with_rand (λ k, rand s (S k)) (with_tiles t1 s)) Hv1 Hn)
      as (t' & Hrun & Hv' & Hr' & Hcol).
    simpl in *. exists t'. split.
    { by rewrite (bind_ret _ _ _ _ _ Hstep), Hrun. }
    split; [done|]. split; [by eapply rtc_l|].
    intros bi bi' Hb Hb'.
    destruct (valid_board_blank _ _ Hv1) as [b1 Hk1].
    apply list_find_Some in Hk1 as (Hb1 & _).
    rewrite (Hcol b1 bi' Hb1 Hb').
    rewrite (slide_blank_colour _ _ _ _ _ Hv Hs1 Hb Hb1).
    rewrite Nat.odd_succ, <- Nat.negb_odd.
    by destruct (Nat.odd (length xs)), (cell_colour (size s) bi).
Qed.

(** The same for [shuffle_board]: [range(moves)] has [moves] items, or
    none when [moves] is negative. *)
Lemma shuffle_board_trace moves s :
  valid_board (size s) (tiles s) → 2 ≤ size s →
  ∃ t', shuffle_board moves s
          = Ret tt (with_rand (λ k, rand s (Z.to_nat moves + k)%nat)
                      (with_tiles t' s)) ∧
    valid_board (size s) t' ∧
    reachable (size s) (tiles s) t' ∧
    ∀ bi bi', tiles s !! bi = Some 0 → t' !! bi' = Some 0 →
      cell_colour (size s) bi'
      = xorb (Nat.odd (Z.to_nat moves)) (cell_colour (size s) bi).
Proof.
  intros Hv Hn. unfold shuffle_board. rewrite bind_gets.
  destruct (shuffle_steps_trace (py_range 0 moves) s Hv Hn)
    as (t' & Hrun & Hrest).
  unfold py_range in *. rewrite length_seqZ in Hrun, Hrest.
  rewrite Z.sub_0_r in *. by exists t'.
Qed.

Lemma solved_board_blank n :
  0 < n → solved_board n !! Z.to_nat (n * n - 1) = Some 0.
Proof.
  intros Hn. unfold solved_board, py_range.
  rewrite lookup_app_r by (rewrite length_seqZ; lia).
  rewrite length_seqZ.
  by replace (Z.to_nat (n * n - 1) - Z.to_nat (n * n - 1))%nat with 0%nat by lia.
Qed.

(** The state a new game reaches before the bot is considered. *)
Lemma new_game_shuffled s :
  ∃ t' b,
    new_game s =
      (if bool_decide (mode s = "Bot") then call_bot_script else mret tt)
        (with_buttons b (shuffled_game s t')) ∧
    valid_board (clamp (size s)) t' ∧
    reachable (clamp (size s)) (solved_board (clamp (size s))) t' ∧
    ∀ bi, t' !! bi = Some 0 → cell_colour (clamp (size s)) bi = true.
Proof.
  rewrite new_game_unfold.
  pose proof (clamp_range (size s)) as Hc.
  set (n := clamp (size s)) in *.
  assert (valid_board (size (fresh_game s)) (tiles (fresh_game s))) as Hv0
    by (apply solved_board_valid; simpl; fold n; lia).
  destruct (shuffle_board_trace (n * n * 20) (fresh_game s) Hv0)
    as (t' & Hrun & Hv' & Hr' & Hcol); [simpl; fold n; lia|].
  simpl in Hrun, Hv', Hcol. fold n in Hrun, Hv', Hcol.
  rewrite (bind_ret _ _ _ _ _ Hrun).
  change (with_rand _ _) with (shuffled_game s t').
  destruct (draw_board_returns (shuffled_game s t')) as [b Hdraw].
  { simpl. fold n. rewrite (valid_board_length _ _ Hv'). lia. }
  rewrite (bind_ret _ _ _ _ _ Hdraw). rewrite bind_gets.
  exists t', b. split; [done|]. split; [done|]. split; [done|].
  intros bi Hb.
  rewrite (Hcol (Z.to_nat (n * n - 1)) bi) by
    (try apply solved_board_blank; try done; lia).
  assert (Nat.odd (Z.to_nat (n * n * 20)) = false) as ->.
  { replace (Z.to_nat (n * n * 20)) with (2 * Z.to_nat (n * n * 10))%nat
      by lia.
    apply Nat.odd_even. }
  simpl. unfold cell_colour.
  replace (n * n - 1) with ((n - 1) * n + (n - 1)) by lia.
  rewrite cell_of_flat by (unfold in_grid; lia). simpl.
  replace (n - 1 + (n - 1)) with (2 * (n - 1)) by lia.
  apply Z.even_even.
Qed.

(** X9. On a valid board of at least two rows, [shuffle_board moves]
    returns after consuming exactly [moves] random draws (none when
    [moves] is not positive, and then the state is unchanged), and the
    blank ends on a cell of the colour it started on exactly when
    [moves] is even. *)
Theorem shuffle_board_draws_and_colour moves s bi :
  valid_board (size s) (tiles s) → 2 ≤ size s →
  tiles s !! bi = Some 0 →
  ∃ s' bi', shuffle_board moves s = Ret tt s' ∧
    tiles s' !! bi' = Some 0 ∧
    (∀ k, rand s' k = rand s (Z.to_nat moves + k)%nat) ∧
    cell_colour (size s) bi'
      = xorb (Nat.odd (Z.to_nat moves)) (cell_colour (size s) bi) ∧
    (moves ≤ 0 → s' = s).
Proof.
  intros Hv Hn Hb.
  destruct (shuffle_board_trace moves s Hv Hn) as (t' & Hrun & Hv' & _ & Hcol).
  destruct (valid_board_blank _ _ Hv') as [bi' Hk].
  apply list_find_Some in Hk as (Hb' & _).
  eexists _, bi'. split; [exact Hrun|]. simpl.
  split; [done|]. split; [done|]. split; [by apply Hcol|].
  intros Hm.
  assert (shuffle_board moves s = Ret tt s) as Hnop.
  { unfold shuffle_board. rewrite bind_gets.
    unfold py_range. by rewrite seqZ_nil by lia. }
  rewrite Hnop in Hrun. by injection Hrun as <-.
Qed.

Lemma shuffle_board_draws_and_colour_witness :
  ∃ s' bi', shuffle_board 5 (puzzle3 almost_solved 0) = Ret tt s' ∧
    tiles s' !! bi' = Some 0 ∧
    (∀ k, rand s' k = (5 + k)%nat) ∧
    cell_colour 3 bi' = xorb (Nat.odd 5) (cell_colour 3 7) ∧
    (5 ≤ 0 → s' = puzzle3 almost_solved 0).
Proof.
  apply (shuffle_board_draws_and_colour 5 (puzzle3 almost_solved 0) 7).
  - exact almost_solved_valid.
  - simpl. lia.
  - reflexivity.
Defined.

(** X10. Whatever the state and the random draws, a new game consumes
    exactly [20 * N * N] random draws, and it leaves the blank on a cell
    whose row and column have an even sum (the colour of the bottom
    right corner, where the blank starts, since the number of slides is
    even). *)
Theorem new_game_blank_on_even_cell s :
  ∃ s' br bc, new_game s = Ret tt s' ∧
    get_blank_pos s' = Ret (br, bc) s' ∧
    Z.even (br + bc) = true ∧
    ∀ k, rand s' k = rand s (Z.to_nat (20 * size s' * size s') + k)%nat.
Proof.
  destruct (new_game_shuffled s) as (t' & b & Hrun & Hv & _ & Hcol).
  destruct (valid_board_blank _ _ Hv) as [bi Hk].
  apply list_find_Some in Hk as (Hb & _).
  specialize (Hcol bi Hb). unfold cell_colour in Hcol.
  assert (∃ p d, new_game s
    = Ret tt (with_dialogs d (with_spawned p
                (with_buttons b (shuffled_game s t'))))) as (p & d & Hfin).
  { rewrite Hrun. case_bool_decide.
    - apply call_bot_script_returns.
    - exists (spawned s), (dialogs s). reflexivity. }
  eexists _, _, _. split; [exact Hfin|].
  split; [by apply (get_blank_pos_valid _ bi)|]. simpl.
  split; [exact Hcol|].
  intros k. do 2 f_equal. lia.
Qed.

(** X11. A new game and the bot. In a mode other than "Bot" a new game
    launches nothing and opens no dialog. In Bot mode, when the script
    exists and the launch succeeds, exactly one process is started, on
    the script's path, and no dialog is opened; when the script is
    missing or the launch raises, no process is started and the one
    error dialog is opened. In every case the call returns with a fresh
    valid board and zero moves, so the game can be played. *)
Theorem new_game_and_bot s :
  ∃ s', new_game s = Ret tt s' ∧
    move_count s' = 0 ∧ valid_board (size s') (tiles s') ∧
    (mode s ≠ "Bot" → spawned s' = spawned s ∧ dialogs s' = dialogs s) ∧
    (mode s = "Bot" → fs_exists s bot_path = true → popen_error s = None →
       spawned s' = spawned s ++ [bot_path] ∧ dialogs s' = dialogs s) ∧
    (mode s = "Bot" → fs_exists s bot_path = false →
       spawned s' = spawned s ∧
       dialogs s' = dialogs s ++ [showerror "Bot Error" bot_not_found]) ∧
    (∀ msg, mode s = "Bot" → fs_exists s bot_path = true →
       popen_error s = Some msg →
       spawned s' = spawned s ∧
       dialogs s' = dialogs s
                    ++ [showerror "Bot Error" (bot_start_failed msg)]).
Proof.
  destruct (new_game_shuffled s) as (t' & b & Hrun & Hv & _ & _).
  rewrite Hrun. case_bool_decide as Hm.
  - unfold call_bot_script. rewrite bind_gets. simpl.
    fold bot_path.
    destruct (fs_exists s bot_path) eqn:Hfs; simpl.
    + unfold try_except, Popen. simpl.
      destruct (popen_error s) as [msg|] eqn:Hpe.
      * eexists. split; [reflexivity|]. simpl.
        split; [done|]. split; [done|].
        repeat split; intros; simplify_eq; done.
      * eexists. split; [reflexivity|]. simpl.
        split; [done|]. split; [done|].
        repeat split; intros; simplify_eq; done.
    + eexists. split; [reflexivity|]. simpl.
      split; [done|]. split; [done|].
      repeat split; intros; simplify_eq; done.
  - eexists. split; [reflexivity|]. simpl.
    split; [done|]. split; [done|].
    repeat split; intros; simplify_eq; done.
Qed.

Lemma new_game_and_bot_witness :
  ∃ s', new_game (mkPuzzle 3 "Bot" 7 [] ∅ (λ i, i) (λ _, true) None [] [])
          = Ret tt s' ∧
    spawned s' = [] ++ [bot_path] ∧ dialogs s' = [].
Proof.
  destruct (new_game_and_bot
    (mkPuzzle 3 "Bot" 7 [] ∅ (λ i, i) (λ _, true) None [] []))
    as (s' & Hrun & _ & _ & _ & Hok & _).
  exists s'. split; [exact Hrun|].
  apply Hok; reflexivity.
Defined.

(** X12. Constructing the window always succeeds, whatever the random
    draws and the surroundings: it yields a 4x4 game in Human mode with
    zero moves and a valid board reached from the solved board by legal
    slides, after exactly 320 random draws, without launching the bot
    or opening a dialog. *)
Theorem init_starts_a_game s :
  ∃ s', __init__ s = Ret tt s' ∧
    size s' = 4 ∧ mode s' = "Human" ∧ move_count s' = 0 ∧
    valid_board 4 (tiles s') ∧
    reachable 4 (solved_board 4) (tiles s') ∧
    (∀ k, rand s' k = rand s (320 + k)%nat) ∧
    spawned s' = spawned s ∧ dialogs s' = dialogs s.
Proof.
  unfold __init__. rewrite !bind_modify.
  set (s0 := with_buttons ∅ (with_tiles [] (with_move_count 0
               (with_mode "Human" (with_size 4 s))))).
  destruct (new_game_shuffled s0) as (t' & b & Hrun & Hv & Hr & _).
  rewrite Hrun. simpl.
  eexists. split; [reflexivity|]. simpl. done.
Qed.

(** ** Drawing the board *)

(** A loop whose body never raises, with an invariant that follows the
    items already processed. *)
Lemma for_each_prefix {A} (I : list A → SlidingPuzzle → Prop) (xs : list A)
    (body : A → M unit) d s :
  I d s →
  (∀ d x s, x ∈ xs → I d s → ∃ s', body x s = Ret tt s' ∧ I (d ++ [x]) s') →
  ∃ s', for_each xs body s = Ret tt s' ∧ I (d ++ xs) s'.
Proof.
  revert d s. induction xs as [|x xs IH]; intros d s Hs Hbody; simpl.
  - exists s. by rewrite app_nil_r.
  - destruct (Hbody d x s) as (s1 & Hx & H1); [by left|done|].
    destruct (IH (d ++ [x]) s1 H1) as (s2 & Hxs & H2).
    { intros d' y s' Hy. apply Hbody. by right. }
    exists s2. rewrite (bind_ret _ _ _ _ _ Hx).
    split; [done|]. by rewrite <- app_assoc in H2.
Qed.

Lemma drawn_iff n t (P Q : Z * Z → Prop) b :
  (∀ p, P p ↔ Q p) → drawn n t P b → drawn n t Q b.
Proof.
  intros HPQ Hd p. destruct (Hd p) as [H1 H2].
  split; intros H; [apply H1|apply H2]; by rewrite HPQ.
Qed.

(** Drawing one more cell. *)
Lemma drawn_insert n t (P : Z * Z → Prop) b r c v :
  drawn n t P b → t !! Z.to_nat (r * n + c) = Some v →
  drawn n t (λ p, P p ∨ p = (r, c)) (<[(r, c) := widget_of v]> b).
Proof.
  intros Hd Hv p. destruct (Hd p) as [H1 H2].
  destruct (decide (p = (r, c))) as [->|Hne].
  - rewrite lookup_insert_eq. simpl. rewrite Hv. split; [done|].
    intros Hno. exfalso. apply Hno. by right.
  - rewrite lookup_insert_ne by done. split.
    + intros [HP|Heq]; [by apply H1|done].
    + intros Hno. apply H2. intros HP. apply Hno. by left.
Qed.

(** The body of the inner loop of [draw_board] draws the cell. *)
Lemma draw_cell s0 b r c v :
  tiles s0 !! Z.to_nat (r * size s0 + c) = Some v → 0 ≤ r * size s0 + c →
  (value ← tiles_getitem (r * size s0 + c);
   if bool_decide (value = 0)
   then modify (λ s, with_buttons (<[(r, c) := Label]> (buttons s)) s)
   else modify (λ s,
          with_buttons (<[(r, c) := Button (str value)]> (buttons s)) s))
    (with_buttons b s0)
  = Ret tt (with_buttons (<[(r, c) := widget_of v]> b) s0).
Proof.
  intros Hv Hi.
  rewrite (bind_ret _ _ _ v (with_buttons b s0))
    by (apply tiles_getitem_front; [lia|done]).
  unfold widget_of. by case_bool_decide.
Qed.

(** The widgets after [draw_board]: one per cell of the grid. *)
Lemma draw_board_drawn s :
  size s * size s ≤ Z.of_nat (length (tiles s)) →
  ∃ b, draw_board s = Ret tt (with_buttons b s) ∧
    drawn (size s) (tiles s) (λ p, in_grid (size s) p.1 p.2) b.
Proof.
  intros Hlen. unfold draw_board. rewrite bind_modify, bind_gets. simpl.
  set (n := size s) in *. set (t := tiles s) in *.
  set (rows := λ (dr : list Z) (p : Z * Z), p.1 ∈ dr ∧ p.2 ∈ seqZ 0 n).
  set (I := λ dr s', ∃ b, s' = with_buttons b s ∧ drawn n t (rows dr) b).
  destruct (for_each_prefix I (py_range 0 n)
    (λ r, for_each (py_range 0 n) (λ c,
       value ← tiles_getitem (r * n + c);
       if bool_decide (value = 0)
       then modify (λ s, with_buttons (<[(r, c) := Label]> (buttons s)) s)
       else modify (λ s,
          with_buttons (<[(r, c) := Button (str value)]> (buttons s)) s)))
    [] (with_buttons ∅ s))
    as (s' & Hrun & b & -> & Hb).
  - exists ∅. split; [done|]. intros p. rewrite lookup_empty.
    split; [|done]. unfold rows. rewrite elem_of_nil. tauto.
  - intros dr r s1 Hr (b1 & -> & Hb1).
    set (cells := λ (dc : list Z) (p : Z * Z),
           rows dr p ∨ (p.1 = r ∧ p.2 ∈ dc)).
    set (J := λ dc s', ∃ b, s' = with_buttons b s ∧ drawn n t (cells dc) b).
    destruct (for_each_prefix J (py_range 0 n)
      (λ c, value ← tiles_getitem (r * n + c);
         if bool_decide (value = 0)
         then modify (λ s, with_buttons (<[(r, c) := Label]> (buttons s)) s)
         else modify (λ s,
            with_buttons (<[(r, c) := Button (str value)]> (buttons s)) s))
      [] (with_buttons b1 s))
      as (s' & Hrun & b & -> & Hb).
    + exists b1. split; [done|]. eapply drawn_iff; [|exact Hb1].
      intros p. unfold cells. rewrite elem_of_nil. tauto.
    + intros dc c s2 Hc (b2 & -> & Hb2).
      apply elem_of_seqZ in Hr, Hc.
      assert (0 ≤ r * n + c < Z.of_nat (length t)) as Hi by nia.
      destruct (lookup_lt_is_Some_2 t (Z.to_nat (r * n + c))) as [v Hv];
        [lia|].
      eexists. split; [by apply (draw_cell s b2 r c v); [|lia]|].
      eexists. split; [reflexivity|].
      eapply drawn_iff; [|by apply (drawn_insert _ _ _ _ r c v Hb2)].
      intros [a d]. unfold cells. simpl. rewrite elem_of_app.
      rewrite list_elem_of_singleton. split.
      * intros [[H1|[-> H2]]|[= -> ->]]; auto.
      * intros [H1|[-> [H2| ->]]]; auto.
    + eexists. split; [exact Hrun|]. exists b. split; [done|].
      eapply drawn_iff; [|exact Hb]. intros [a d]. unfold cells, rows.
      simpl. rewrite elem_of_app, list_elem_of_singleton.
      unfold py_range. rewrite Z.sub_0_r.
      split; [intros [H1|[-> H2]]; tauto|].
      intros [[H1| ->] H2]; tauto.
  - exists b. split; [exact Hrun|]. eapply drawn_iff; [|exact Hb].
    intros [a d]. unfold rows, in_grid, py_range. simpl.
    rewrite !elem_of_seqZ. lia.
Qed.

Lemma drawn_unique n t (P : Z * Z → Prop) b1 b2 :
  (∀ p, P p ∨ ¬ P p) → drawn n t P b1 → drawn n t P b2 → b1 = b2.
Proof.
  intros Hdec H1 H2. apply map_eq. intros p.
  destruct (H1 p) as [H1y H1n], (H2 p) as [H2y H2n].
  destruct (Hdec p) as [HP|HP].
  - by rewrite H1y, H2y.
  - by rewrite H1n, H2n.
Qed.

Lemma in_grid_dec n r c : in_grid n r c ∨ ¬ in_grid n r c.
Proof. unfold in_grid. lia. Qed.

(** X13. When the tiles fill the grid, [draw_board] returns with
    exactly one widget per cell of the grid, and none elsewhere: the
    gray label where the tile is 0, and otherwise a button captioned
    with the tile's number. Nothing but the widgets changes. *)
Theorem draw_board_widgets s :
  size s * size s ≤ Z.of_nat (length (tiles s)) →
  ∃ b, draw_board s = Ret tt (with_buttons b s) ∧
    ∀ r c,
      (in_grid (size s) r c →
       ∃ v, tiles s !! Z.to_nat (r * size s + c) = Some v ∧
            b !! (r, c) = Some (if bool_decide (v = 0) then Label
                                else Button (str v))) ∧
      (¬ in_grid (size s) r c → b !! (r, c) = None).
Proof.
  intros Hlen. destruct (draw_board_drawn s Hlen) as (b & Hrun & Hb).
  exists b. split; [done|]. intros r c. destruct (Hb (r, c)) as [Hy Hn].
  simpl in *. split; [|done].
  intros Hg. pose proof (flat_index_bounds _ _ _ Hg) as Hi.
  destruct (lookup_lt_is_Some_2 (tiles s) (Z.to_nat (r * size s + c)))
    as [v Hv]; [lia|].
  exists v. split; [done|]. rewrite (Hy Hg), Hv. done.
Qed.

Lemma draw_board_widgets_witness :
  ∃ b, draw_board (puzzle3 almost_solved 0)
         = Ret tt (with_buttons b (puzzle3 almost_solved 0)) ∧
    ∀ r c,
      (in_grid 3 r c →
       ∃ v, almost_solved !! Z.to_nat (r * 3 + c) = Some v ∧
            b !! (r, c) = Some (if bool_decide (v = 0) then Label
                                else Button (str v))) ∧
      (¬ in_grid 3 r c → b !! (r, c) = None).
Proof.
  apply (draw_board_widgets (puzzle3 almost_solved 0)).
  simpl. lia.
Defined.

(** X14. Drawing depends on the tiles and the size only: when the
    tiles fill the grid, drawing again changes nothing, and the widgets
    that were there before a drawing do not matter. *)
Theorem draw_board_redraw s b0 :
  size s * size s ≤ Z.of_nat (length (tiles s)) →
  ∃ s', draw_board s = Ret tt s' ∧
        draw_board s' = Ret tt s' ∧
        draw_board (with_buttons b0 s) = Ret tt s'.
Proof.
  intros Hlen. destruct (draw_board_drawn s Hlen) as (b & Hrun & Hb).
  exists (with_buttons b s). split; [done|].
  assert (∀ b1, draw_board (with_buttons b1 s) = Ret tt (with_buttons b s))
    as Hany.
  { intros b1.
    destruct (draw_board_drawn (with_buttons b1 s) Hlen) as (b' & Hrun' & Hb').
    simpl in Hb'. rewrite Hrun'.
    rewrite (drawn_unique _ _ _ b' b (λ p, in_grid_dec _ _ _) Hb' Hb).
    reflexivity. }
  split; apply Hany.
Qed.

Lemma draw_board_redraw_witness :
  ∃ s', draw_board (puzzle3 almost_solved 0) = Ret tt s' ∧
        draw_board s' = Ret tt s' ∧
        draw_board (with_buttons {[(9, 9) := Label]} (puzzle3 almost_solved 0))
          = Ret tt s'.
Proof.
  apply (draw_board_redraw (puzzle3 almost_solved 0) {[(9, 9) := Label]}).
  simpl. lia.
Defined.

(** ** Drawing a board that does not fill the grid *)

Lemma for_each_raise_at {A} (pre : list A) x post (body : A → M unit)
    s s1 e s2 :
  for_each pre body s = Ret tt s1 → body x s1 = Raise e s2 →
  for_each (pre ++ x :: post) body s = Raise e s2.
Proof.
  revert s. induction pre as [|a pre IH]; intros s Hpre Hx; simpl in *.
  - injection Hpre as ->. by apply bind_raise.
  - unfold mbind, M_mbind, M_bind in Hpre |- *.
    destruct (body a s) as [[] sa|e' sa]; [|done]. by apply IH.
Qed.

(** X15. [draw_board] does not check that the tiles fill the grid: when
    the size is positive and there are fewer than [size * size] tiles,
    it raises [IndexError] at the first cell without a tile, after
    replacing the widgets; the tiles, the size and the move count are
    as before. *)
Theorem draw_board_short s :
  0 < size s → Z.of_nat (length (tiles s)) < size s * size s →
  ∃ b, draw_board s = Raise IndexError (with_buttons b s).
Proof.
  intros Hn Hlen. unfold draw_board. rewrite bind_modify, bind_gets. simpl.
  set (n := size s) in *. set (len := Z.of_nat (length (tiles s))) in *.
  set (r0 := len `div` n). set (c0 := len `mod` n).
  assert (len = n * r0 + c0) as Hdm by (apply Z.div_mod; lia).
  assert (0 ≤ c0 < n) as Hc0 by (apply Z.mod_pos_bound; lia).
  assert (0 ≤ r0 < n) as Hr0.
  { split; [apply Z.div_pos; lia|]. apply Z.div_lt_upper_bound; lia. }
  set (cellbody := λ r c,
     value ← tiles_getitem (r * n + c);
     if bool_decide (value = 0)
     then modify (λ s, with_buttons (<[(r, c) := Label]> (buttons s)) s)
     else modify (λ s,
        with_buttons (<[(r, c) := Button (str value)]> (buttons s)) s)).
  set (I := λ s', ∃ b, s' = with_buttons b s).
  assert (∀ r c s1, 0 ≤ r * n + c < len → I s1 →
            ∃ s', cellbody r c s1 = Ret tt s' ∧ I s') as Hcell.
  { intros r c s1 Hi [b1 ->].
    destruct (lookup_lt_is_Some_2 (tiles s) (Z.to_nat (r * n + c)))
      as [v Hv]; [lia|].
    unfold cellbody.
    rewrite (bind_ret _ _ _ v (with_buttons b1 s))
      by (apply tiles_getitem_front; [lia|done]).
    case_bool_decide; eexists; (split; [reflexivity|]); by eexists. }
  change (∃ b, for_each (py_range 0 n)
            (λ r, for_each (py_range 0 n) (cellbody r)) (with_buttons ∅ s)
          = Raise IndexError (with_buttons b s)).
  unfold py_range. rewrite Z.sub_0_r.
  assert (seqZ 0 n = seqZ 0 r0 ++ r0 :: seqZ (Z.succ r0) (Z.pred (n - r0)))
    as Hrows.
  { replace n with (r0 + (n - r0)) at 1 by lia.
    rewrite seqZ_app by lia. by rewrite (seqZ_cons (0 + r0)) by lia. }
  assert (seqZ 0 n = seqZ 0 c0 ++ c0 :: seqZ (Z.succ c0) (Z.pred (n - c0)))
    as Hcols.
  { replace n with (c0 + (n - c0)) at 1 by lia.
    rewrite seqZ_app by lia. by rewrite (seqZ_cons (0 + c0)) by lia. }
  destruct (for_each_inv I (seqZ 0 r0)
    (λ r, for_each (seqZ 0 n) (cellbody r)) (with_buttons ∅ s))
    as (s1 & Hrun1 & b1 & ->).
  { by exists ∅. }
  { intros r s1 Hr H1. apply for_each_inv; [done|].
    intros c s2 Hc H2. apply elem_of_seqZ in Hr, Hc.
    apply Hcell; [nia|done]. }
  destruct (for_each_inv I (seqZ 0 c0) (cellbody r0) (with_buttons b1 s))
    as (s2 & Hrun2 & b2 & ->).
  { by exists b1. }
  { intros c s2 Hc H2. apply elem_of_seqZ in Hc. apply Hcell; [nia|done]. }
  exists b2.
  set (rowbody := λ r, for_each (seqZ 0 n) (cellbody r)) in *.
  rewrite Hrows.
  eapply for_each_raise_at; [exact Hrun1|].
  unfold rowbody. rewrite Hcols.
  eapply for_each_raise_at; [exact Hrun2|].
  unfold cellbody. apply bind_raise.
  apply (tiles_getitem_outside (with_buttons b2 s)). simpl. fold len. lia.
Qed.

Lemma draw_board_short_witness :
  ∃ b, draw_board (puzzle3 [1; 2; 0] 0)
       = Raise IndexError (with_buttons b (puzzle3 [1; 2; 0] 0)).
Proof.
  apply (draw_board_short (puzzle3 [1; 2; 0] 0)); simpl; lia.
Defined.

(** ** The solved test *)

Lemma solved_board_lookup_tile n k :
  0 < n → Z.of_nat k < n * n - 1 →
  solved_board n !! k = Some (Z.of_nat k + 1).
Proof.
  intros Hn Hk. unfold solved_board, py_range.
  rewrite lookup_app_l by (rewrite length_seqZ; lia).
  rewrite lookup_seqZ_lt by lia. f_equal. lia.
Qed.

Lemma solved_board_length n :
  0 < n → Z.of_nat (length (solved_board n)) = n * n.
Proof.
  intros Hn. unfold solved_board, py_range.
  rewrite length_app, length_seqZ. simpl. lia.
Qed.

(** X16. [is_solved] is a pure test, true exactly when every tile is at
    its home position: on a grid of positive size, the answer is true
    if and only if there are [N * N] tiles, position [k] holds the tile
    [k + 1] for every [k] below [N * N - 1], and the last position holds
    the blank. The state is never changed. *)
Theorem is_solved_home_positions s :
  0 < size s →
  ∃ b, is_solved s = Ret b s ∧
    (b = true ↔
       Z.of_nat (length (tiles s)) = size s * size s ∧
       (∀ k, Z.of_nat k < size s * size s - 1 →
             tiles s !! k = Some (Z.of_nat k + 1)) ∧
       tiles s !! Z.to_nat (size s * size s - 1) = Some 0).
Proof.
  intros Hn. eexists. split; [apply is_solved_ret|].
  rewrite bool_decide_eq_true. split.
  - intros ->. split; [by apply solved_board_length|].
    split; [intros k Hk; by apply solved_board_lookup_tile|].
    by apply solved_board_blank.
  - intros (Hlen & Htiles & Hblank). apply list_eq. intros i.
    destruct (decide (Z.of_nat i < size s * size s - 1)) as [Hi|Hi].
    { by rewrite Htiles, solved_board_lookup_tile. }
    destruct (decide (i = Z.to_nat (size s * size s - 1))) as [->|Hne].
    { by rewrite Hblank, solved_board_blank. }
    rewrite !lookup_ge_None_2; [done| |].
    + pose proof (solved_board_length _ Hn). lia.
    + lia.
Qed.

Lemma is_solved_home_positions_witness :
  ∃ b, is_solved (puzzle3 almost_solved 0) = Ret b (puzzle3 almost_solved 0) ∧
    (b = true ↔
       Z.of_nat (length almost_solved) = 3 * 3 ∧
       (∀ k, Z.of_nat k < 3 * 3 - 1 →
             almost_solved !! k = Some (Z.of_nat k + 1)) ∧
       almost_solved !! Z.to_nat (3 * 3 - 1) = Some 0).
Proof.
  apply (is_solved_home_positions (puzzle3 almost_solved 0)).
  simpl. lia.
Defined.

(** ** Play never leaves the solvable boards *)

Lemma perform_play_ok a s :
  match a with NewGame _ => True | _ => play_ok s end →
  match a with Click row col => in_grid (size s) row col | _ => True end →
  ∃ s', perform a s = Ret tt s' ∧ play_ok s'.
Proof.
  destruct a as [n|m|row col]; simpl; intros Hok Hg.
  - rewrite bind_modify.
    destruct (new_game_returns (with_size n s))
      as (t' & b & r' & p & d & Hrun & Hv & Hr).
    eexists. split; [exact Hrun|].
    split; [|done]. split; [apply clamp_range|done].
  - eexists. split; [reflexivity|]. done.
  - destruct Hok as [[Hn Hv] Hr].
    destruct (on_tile_click_in_grid s row col Hv Hg)
      as (s' & Hrun & Hsz & Hcase).
    exists s'. split; [done|]. destruct Hcase as [->|[Hs _]]; [done|].
    rewrite <- Hsz in Hs, Hr, Hn, Hv.
    split; [split; [done|by eapply slide_valid]|].
    by eapply rtc_r.
Qed.

Lemma run_play_ok acts s :
  play_ok s → clicks_in_grid acts s →
  ∃ s', for_each acts perform s = Ret tt s' ∧ play_ok s'.
Proof.
  revert s. induction acts as [|a acts IH]; intros s Hok Hg; simpl.
  - by exists s.
  - destruct Hg as [Ha Hrest].
    destruct (perform_play_ok a s) as (s1 & Hrun & Hok1).
    { by destruct a. }
    { by destruct a. }
    rewrite Hrun in Hrest. simpl in Hrest.
    destruct (IH s1 Hok1 Hrest) as (s2 & Hrun2 & Hok2).
    exists s2. split; [|done]. by rewrite (bind_ret _ _ _ _ _ Hrun).
Qed.

(** X17. Play never leads to an unsolvable position: after a new game
    followed by any sequence of new games, mode changes and clicks on
    cells of the grid, the board is still reached from the solved board
    by legal slides, and the solved board is still reached from it. *)
Theorem play_stays_solvable n acts s :
  clicks_in_grid (NewGame n :: acts) s →
  ∃ s', for_each (NewGame n :: acts) perform s = Ret tt s' ∧
    reachable (size s') (solved_board (size s')) (tiles s') ∧
    reachable (size s') (tiles s') (solved_board (size s')).
Proof.
  intros [_ Hg].
  destruct (perform_play_ok (NewGame n) s I I) as (s1 & Hrun & Hok1).
  rewrite Hrun in Hg. simpl in Hg.
  destruct (run_play_ok acts s1 Hok1 Hg) as (s2 & Hrun2 & [Hn2 Hv2] & Hr2).
  exists s2. split.
  { change (for_each (NewGame n :: acts) perform s)
      with ((perform (NewGame n) ;; for_each acts perform) s).
    by rewrite (bind_ret _ _ _ _ _ Hrun). }
  split; [done|].
  eapply reachable_sym; [|exact Hr2]. apply solved_board_valid. lia.
Qed.

Lemma play_stays_solvable_witness :
  ∃ s', for_each (NewGame 3 :: sample_actions) perform
          (init_state (λ i, i) (λ _, false) None) = Ret tt s' ∧
    reachable (size s') (solved_board (size s')) (tiles s') ∧
    reachable (size s') (tiles s') (solved_board (size s')).
Proof.
  apply (play_stays_solvable 3 sample_actions).
  vm_compute. repeat split; first [reflexivity | discriminate].
Defined.
